(** * Bank queue simulation: a shallow embedding of [scripts/simulation.py]

    The simulation is a single-server FIFO queue driven by a two-slot
    event clock.  Python's [float] is IEEE-754 binary64, which is exactly
    Rocq's primitive [float]; the embedding therefore keeps the arithmetic
    of the source (rounding, infinities, the [1e-6] tolerance) instead of
    idealising it.  Python's unbounded [int] is [Z].

    [Customer] objects are shared between [self.customers] and
    [self.queue]: the store is the list [customers] and a reference to a
    customer is its position in that list (which is also its [id]). *)

From Stdlib Require Import ZArith Lia Bool Floats.
From stdpp Require Import base list.

Local Open Scope Z_scope.

(** ** Python primitives used by the source *)

Module Py.

(** The exceptions that the modelled code can raise. *)
Inductive Exn : Set :=
| StopIteration
| ZeroDivisionError
| OverflowError.

(** [float('inf')]. *)
Definition inf : float := infinity.

(** [min(a, b)] on floats: the first argument is kept unless the second
    is strictly smaller. *)
Definition min (a b : float) : float :=
  if (b <? a)%float then b else a.

(** [max(a, b)] on ints: the first argument is kept unless the second is
    strictly greater. *)
Definition max (a b : Z) : Z :=
  if (a <? b)%Z then b else a.

(** [float(n)] for an int [n]: correctly rounded, [OverflowError] when the
    magnitude does not fit. *)
Definition float_of_int (n : Z) : Exn + float :=
  let f := SF2Prim (binary_normalize prec emax n 0 false) in
  if is_infinity f then inl OverflowError else inr f.

(** [a / b] on floats: a zero divisor (of either sign) raises. *)
Definition truediv (a b : float) : Exn + float :=
  if (b =? 0)%float then inl ZeroDivisionError else inr (a / b)%float.

(** [next(c for c in l if p(c))], returning the position of the object
    found; [None] stands for the [StopIteration] of an exhausted
    generator. *)
Fixpoint next_index {A} (p : A -> bool) (l : list A) : option nat :=
  match l with
  | [] => None
  | x :: l' => if p x then Some O else S <$> next_index p l'
  end.

End Py.

(** ** [Customer] *)

Record Customer : Set := mkCustomer {
  id : Z;
  arrival_time : float;
  service_time : float;
  service_start : float;
  departure_time : float
}.

(** The dataclass constructor with its two defaulted fields. *)
Definition new_Customer (i : Z) (arrival service : float) : Customer :=
  mkCustomer i arrival service 0%float 0%float.

Definition waiting_time (c : Customer) : float :=
  (service_start c - arrival_time c)%float.

Definition time_in_system (c : Customer) : float :=
  (departure_time c - arrival_time c)%float.

Definition set_service_start (t : float) (c : Customer) : Customer :=
  mkCustomer (id c) (arrival_time c) (service_time c) t (departure_time c).

Definition set_departure_time (t : float) (c : Customer) : Customer :=
  mkCustomer (id c) (arrival_time c) (service_time c) (service_start c) t.

(** ** The metrics dictionary

    The five keys of [__init__] and the two added by [run]; an average is
    [None] while its key is absent. *)

Record Metrics : Set := mkMetrics {
  total_waiting_time : float;
  total_system_time : float;
  max_queue_length : Z;
  server_utilization : float;
  busy_time : float;
  average_waiting_time : option float;
  average_system_time : option float
}.

(** ** The source of random durations

    [np.random.uniform] reads a global generator.  The values it returns
    are inputs of the run: [interarrival_draw k] is the result of the
    [k]-th call of [generate_interarrival_time], [service_draw k] that of
    the [k]-th call of [generate_service_time]. *)

Record Source : Type := mkSource {
  interarrival_draw : nat -> float;
  service_draw : nat -> float
}.

(** The draws [np.random.uniform(1, 8)] and [np.random.uniform(1, 6)] can
    return. *)
Definition in_range (src : Source) : Prop :=
  forall k,
    (1 <=? interarrival_draw src k)%float = true /\
    (interarrival_draw src k <? 8)%float = true /\
    (1 <=? service_draw src k)%float = true /\
    (service_draw src k <? 6)%float = true.

(** ** [BankQueueSimulation] *)

Record BankQueueSimulation : Type := mkSim {
  num_customers : Z;
  customers : list Customer;
  clock : float;
  server_busy : bool;
  queue : list nat;                (* references into [customers] *)
  next_event_time : float;
  next_arrival : float;
  next_departure : float;
  metrics : Metrics;
  ia_calls : nat;                  (* calls of generate_interarrival_time *)
  sv_calls : nat                   (* calls of generate_service_time *)
}.

(** The simulation object, for short. *)
Abbreviation Sim := BankQueueSimulation.

Definition set_customers (v : list Customer) (s : Sim) : Sim :=
  mkSim (num_customers s) v (clock s) (server_busy s) (queue s)
        (next_event_time s) (next_arrival s) (next_departure s) (metrics s)
        (ia_calls s) (sv_calls s).

Definition set_clock (v : float) (s : Sim) : Sim :=
  mkSim (num_customers s) (customers s) v (server_busy s) (queue s)
        (next_event_time s) (next_arrival s) (next_departure s) (metrics s)
        (ia_calls s) (sv_calls s).

Definition set_server_busy (v : bool) (s : Sim) : Sim :=
  mkSim (num_customers s) (customers s) (clock s) v (queue s)
        (next_event_time s) (next_arrival s) (next_departure s) (metrics s)
        (ia_calls s) (sv_calls s).

Definition set_queue (v : list nat) (s : Sim) : Sim :=
  mkSim (num_customers s) (customers s) (clock s) (server_busy s) v
        (next_event_time s) (next_arrival s) (next_departure s) (metrics s)
        (ia_calls s) (sv_calls s).

Definition set_next_event_time (v : float) (s : Sim) : Sim :=
  mkSim (num_customers s) (customers s) (clock s) (server_busy s) (queue s)
        v (next_arrival s) (next_departure s) (metrics s)
        (ia_calls s) (sv_calls s).

Definition set_next_arrival (v : float) (s : Sim) : Sim :=
  mkSim (num_customers s) (customers s) (clock s) (server_busy s) (queue s)
        (next_event_time s) v (next_departure s) (metrics s)
        (ia_calls s) (sv_calls s).

Definition set_next_departure (v : float) (s : Sim) : Sim :=
  mkSim (num_customers s) (customers s) (clock s) (server_busy s) (queue s)
        (next_event_time s) (next_arrival s) v (metrics s)
        (ia_calls s) (sv_calls s).

Definition set_metrics (v : Metrics) (s : Sim) : Sim :=
  mkSim (num_customers s) (customers s) (clock s) (server_busy s) (queue s)
        (next_event_time s) (next_arrival s) (next_departure s) v
        (ia_calls s) (sv_calls s).

(** [__init__] *)
Definition init (n : Z) : Sim :=
  mkSim n [] 0%float false [] Py.inf 0%float Py.inf
        (mkMetrics 0%float 0%float 0 0%float 0%float None None)
        O O.

(** The object a reference points to.  References are only ever made from
    positions of [customers] (see [refs_valid]), so the default is never
    used in a run. *)
Definition deref (s : Sim) (r : nat) : Customer :=
  default (new_Customer 0 0%float 0%float) (customers s !! r).

(** An attribute assignment through a reference. *)
Definition assign (r : nat) (f : Customer -> Customer) (s : Sim) : Sim :=
  set_customers (alter f r (customers s)) s.

Definition generate_interarrival_time (src : Source) (s : Sim) : float * Sim :=
  (interarrival_draw src (ia_calls s),
   mkSim (num_customers s) (customers s) (clock s) (server_busy s) (queue s)
         (next_event_time s) (next_arrival s) (next_departure s) (metrics s)
         (S (ia_calls s)) (sv_calls s)).

Definition generate_service_time (src : Source) (s : Sim) : float * Sim :=
  (service_draw src (sv_calls s),
   mkSim (num_customers s) (customers s) (clock s) (server_busy s) (queue s)
         (next_event_time s) (next_arrival s) (next_departure s) (metrics s)
         (ia_calls s) (S (sv_calls s))).

Definition schedule_arrival (time : float) (s : Sim) : Sim :=
  let s := set_next_arrival time s in
  set_next_event_time (Py.min (next_event_time s) (next_arrival s)) s.

Definition schedule_departure (time : float) (s : Sim) : Sim :=
  let s := set_next_departure time s in
  set_next_event_time (Py.min (next_event_time s) (next_departure s)) s.

Definition len {A} (l : list A) : Z := Z.of_nat (length l).

(** [handle_arrival(customer)], [customer] being the reference [r]. *)
Definition handle_arrival (src : Source) (r : nat) (s : Sim) : Sim :=
  let s :=
    if negb (server_busy s) then
      let s := set_server_busy true s in
      let s := assign r (set_service_start (clock s)) s in
      let s := assign r (fun c => set_departure_time
                                    (clock s + service_time c)%float c) s in
      schedule_departure (departure_time (deref s r)) s
    else
      set_queue (queue s ++ [r]) s in
  (* Schedule next arrival *)
  let s :=
    if len (customers s) <? num_customers s - 1 then
      let '(ia, s) := generate_interarrival_time src s in
      let '(sv, s) := generate_service_time src s in
      let next_customer :=
        new_Customer (len (customers s) + 1) (clock s + ia)%float sv in
      schedule_arrival (arrival_time next_customer) s
    else s in
  (* Update max queue length *)
  let m := metrics s in
  set_metrics
    (mkMetrics (total_waiting_time m) (total_system_time m)
               (Py.max (max_queue_length m) (len (queue s)))
               (server_utilization m) (busy_time m)
               (average_waiting_time m) (average_system_time m)) s.

(** [handle_departure(customer)], [customer] being the reference [r]. *)
Definition handle_departure (r : nat) (s : Sim) : Sim :=
  let c := deref s r in
  let m := metrics s in
  let m := mkMetrics (total_waiting_time m + waiting_time c)%float
                     (total_system_time m) (max_queue_length m)
                     (server_utilization m) (busy_time m)
                     (average_waiting_time m) (average_system_time m) in
  let m := mkMetrics (total_waiting_time m)
                     (total_system_time m + time_in_system c)%float
                     (max_queue_length m)
                     (server_utilization m) (busy_time m)
                     (average_waiting_time m) (average_system_time m) in
  let m := mkMetrics (total_waiting_time m) (total_system_time m)
                     (max_queue_length m) (server_utilization m)
                     (busy_time m + service_time c)%float
                     (average_waiting_time m) (average_system_time m) in
  let s := set_metrics m s in
  match queue s with
  | next_customer :: rest =>
      let s := set_queue rest s in
      let s := assign next_customer (set_service_start (clock s)) s in
      let s := assign next_customer
                 (fun c => set_departure_time
                             (clock s + service_time c)%float c) s in
      schedule_departure (departure_time (deref s next_customer)) s
  | [] =>
      let s := set_server_busy false s in
      set_next_departure Py.inf s
  end.

(** The literal [1e-6]: the binary64 value nearest to it. *)
Definition tolerance : float := 0x1.0c6f7a0b5ed8dp-20%float.

(** The condition of the generator in the departure lookup. *)
Definition departs_at (t : float) (c : Customer) : bool :=
  (abs (departure_time c - t) <? tolerance)%float.

(** What one pass through the body of the [while] does. *)
Inductive Outcome : Type :=
| Continue (s : Sim)
| Break (s : Sim)
| Raise (e : Py.Exn) (s : Sim).

(** The guard of the arrival branch. *)
Definition arrival_due (s : Sim) : bool :=
  (next_arrival s <=? next_departure s)%float
  && (len (customers s) <? num_customers s).

(** "Process arrival" *)
Definition process_arrival (src : Source) (s : Sim) : Sim :=
  let '(sv, s) := generate_service_time src s in
  let current_customer :=
    new_Customer (len (customers s)) (next_arrival s) sv in
  let r := length (customers s) in
  let s := set_customers (customers s ++ [current_customer]) s in
  handle_arrival src r s.

(** "Update next event time" *)
Definition update_next_event_time (s : Sim) : Sim :=
  set_next_event_time (Py.min (next_arrival s) (next_departure s)) s.

Definition loop_body (src : Source) (s : Sim) : Outcome :=
  let s := set_clock (next_event_time s) s in
  if (clock s =? Py.inf)%float then Break s
  else if arrival_due s then
    Continue (update_next_event_time (process_arrival src s))
  else
    (* Process departure *)
    match Py.next_index (departs_at (clock s)) (customers s) with
    | None => Raise Py.StopIteration s
    | Some r => Continue (update_next_event_time (handle_departure r s))
    end.

(** How the [while] loop ends within [fuel] passes. *)
Inductive LoopResult : Type :=
| Exited (s : Sim)
| Raised (e : Py.Exn) (s : Sim)
| Running (s : Sim).

Fixpoint main_loop (src : Source) (fuel : nat) (s : Sim) : LoopResult :=
  match fuel with
  | O => Running s
  | S fuel =>
      if (clock s <? Py.inf)%float then
        match loop_body src s with
        | Continue s => main_loop src fuel s
        | Break s => Exited s
        | Raise e s => Raised e s
        end
      else Exited s
  end.

(** The three assignments after the loop ("Calculate final metrics"). *)
Definition finalize (s : Sim) : Py.Exn * Sim + Sim :=
  let m := metrics s in
  match Py.truediv (busy_time m) (clock s) with
  | inl e => inl (e, s)
  | inr q =>
      let m := mkMetrics (total_waiting_time m) (total_system_time m)
                         (max_queue_length m) (q * 100)%float (busy_time m)
                         (average_waiting_time m) (average_system_time m) in
      let s := set_metrics m s in
      match Py.float_of_int (num_customers s) with
      | inl e => inl (e, s)
      | inr n =>
          match Py.truediv (total_waiting_time m) n with
          | inl e => inl (e, s)
          | inr a =>
              let m := mkMetrics (total_waiting_time m) (total_system_time m)
                                 (max_queue_length m) (server_utilization m)
                                 (busy_time m)
                                 (Some a) (average_system_time m) in
              let s := set_metrics m s in
              match Py.truediv (total_system_time m) n with
              | inl e => inl (e, s)
              | inr b =>
                  let m := mkMetrics (total_waiting_time m)
                                     (total_system_time m)
                                     (max_queue_length m)
                                     (server_utilization m) (busy_time m)
                                     (average_waiting_time m) (Some b) in
                  inr (set_metrics m s)
              end
          end
      end
  end.

(** The state in which the loop is entered: the first customer is drawn
    (and dropped) and its arrival scheduled. *)
Definition start (src : Source) (n : Z) : Sim :=
  let s := init n in
  let '(sv, s) := generate_service_time src s in
  let first_customer := new_Customer 0 0%float sv in
  schedule_arrival (arrival_time first_customer) s.

(** The result of [run()] observed for at most [fuel] passes of the loop. *)
Inductive RunResult : Type :=
| Returned (m : Metrics) (s : Sim)
| Failed (e : Py.Exn) (s : Sim)
| Unfinished (s : Sim).

Definition run (src : Source) (fuel : nat) (n : Z) : RunResult :=
  match main_loop src fuel (start src n) with
  | Exited s =>
      match finalize s with
      | inl (e, s) => Failed e s
      | inr s => Returned (metrics s) s
      end
  | Raised e s => Failed e s
  | Running s => Unfinished s
  end.

(** [get_customer_data()] *)
Record CustomerRow : Set := mkRow {
  row_id : Z;
  row_arrival_time : float;
  row_service_time : float;
  row_waiting_time : float;
  row_departure_time : float;
  row_time_in_system : float
}.

Definition get_customer_data (s : Sim) : list CustomerRow :=
  (fun c => mkRow (id c) (arrival_time c) (service_time c) (waiting_time c)
                  (departure_time c) (time_in_system c)) <$> customers s.

Definition const_source (ia sv : float) : Source :=
  mkSource (fun _ => ia) (fun _ => sv).

(** The simulation object as a result of the loop leaves it. *)
Definition state_of (r : LoopResult) : Sim :=
  match r with
  | Exited s | Raised _ s | Running s => s
  end.

(** ** Predicates of the specification *)

(** A time strictly below [float('inf')]: the [while] condition. *)
Definition below_inf (t : float) : bool := (t <? Py.inf)%float.

(** A finite time. *)
Definition finite (t : float) : bool := (abs t <? Py.inf)%float.

(** "The wait queue is non-empty only while the server is busy." *)
Definition station_ok (s : Sim) : bool :=
  match queue s with
  | [] => true
  | _ :: _ => server_busy s
  end.

(** Every reference in the wait queue points into the customer list. *)
Definition refs_valid (s : Sim) : Prop :=
  Forall (fun r => (r < length (customers s))%nat) (queue s).

(** While the server is busy, some customer record carries the pending
    departure time. *)
Definition in_service (s : Sim) : Prop :=
  server_busy s = true ->
  exists r c, customers s !! r = Some c /\ departure_time c = next_departure s.

(** The three together: what every pass of the loop keeps. *)
Definition station_inv (s : Sim) : Prop :=
  station_ok s = true /\ refs_valid s /\ in_service s.

(** A customer in the wait queue is there once, and its record still has
    the two defaults of the constructor. *)
Definition waiting_unserved (s : Sim) : Prop :=
  NoDup (queue s) /\ refs_valid s /\
  forall r c, r ∈ queue s -> customers s !! r = Some c ->
              service_start c = 0%float /\ departure_time c = 0%float.

(** A customer that is not (or no longer) waiting has been given its
    departure time from its start of service. *)
Definition served_consistent (s : Sim) : Prop :=
  forall r c, customers s !! r = Some c -> r ∉ queue s ->
              departure_time c = (service_start c + service_time c)%float.

(** No more customers than asked for have been created. *)
Definition within_budget (n : Z) (s : Sim) : Prop :=
  num_customers s = n /\ len (customers s) <= Z.max 0 n.

(** No further arrival will be scheduled, and the one last scheduled is
    still in its slot. *)
Definition arrivals_exhausted (s : Sim) : Prop :=
  num_customers s - 1 <= len (customers s) /\
  below_inf (next_arrival s) = true /\
  below_inf (next_event_time s) = true /\
  below_inf (clock s) = true.

(** [run] has returned its metrics. *)
Definition returned (r : RunResult) : bool :=
  match r with Returned _ _ => true | _ => false end.

(** The loop has been left without an exception. *)
Definition exited (r : LoopResult) : bool :=
  match r with Exited _ => true | _ => false end.

(** The number of customers the departure lookup could resolve to. *)
Definition matches (t : float) (l : list Customer) : nat :=
  length (filter (fun c => departs_at t c = true) l).


(** "time_in_system == waiting_time + service_duration" *)
Definition system_time_splits (c : Customer) : bool :=
  (time_in_system c =? waiting_time c + service_time c)%float.

(** ** Further invariants of a run *)

(** A customer's [id] is its position in [customers]. *)
Definition ids_are_positions (s : Sim) : Prop :=
  forall r c, customers s !! r = Some c -> id c = Z.of_nat r.

(** The wait queue holds its references in increasing order, that is in
    the order in which the customers were created. *)
Definition queue_in_order (s : Sim) : Prop :=
  forall i j a b, (i < j)%nat ->
    queue s !! i = Some a -> queue s !! j = Some b -> (a < b)%nat.

(** The two event slots and the next event time agree, and an idle server
    has no departure pending. *)
Definition slots_consistent (s : Sim) : Prop :=
  next_event_time s = Py.min (next_arrival s) (next_departure s) /\
  (server_busy s = false -> next_departure s = Py.inf).

(** The queue is never longer than the recorded maximum, and fewer
    customers wait than have been created. *)
Definition queue_bounded (s : Sim) : Prop :=
  len (queue s) <= max_queue_length (metrics s) /\
  max_queue_length (metrics s) <= Z.max 0 (len (customers s) - 1) /\
  len (queue s) <= Z.max 0 (len (customers s) - 1).

(** The draws made so far: one service time before the loop, one for each
    customer created, and an inter-arrival time with a service time for
    each arrival scheduled. *)
Definition draws_accounted (s : Sim) : Prop :=
  sv_calls s = (1 + length (customers s) + ia_calls s)%nat /\
  (ia_calls s <= length (customers s))%nat.

(** ** [plot_queue_length_over_time]: the series that is plotted

    The rows are those of the data frame in the order [sort_values] yields
    them; a point of the series is a time and a queue length. *)

(** One turn of the [for] loop over the rows. *)
Definition series_step (acc : list float * list Z * Z) (row : CustomerRow)
  : list float * list Z * Z :=
  let '(time_points, queue_lengths, current_queue) := acc in
  let time_points := time_points ++ [row_arrival_time row] in
  let queue_lengths := queue_lengths ++ [current_queue] in
  let current_queue := current_queue + 1 in
  let time_points := time_points ++ [row_departure_time row] in
  let queue_lengths := queue_lengths ++ [current_queue] in
  let current_queue := Py.max 0 (current_queue - 1) in
  (time_points, queue_lengths, current_queue).

(** [time_series = list(zip(time_points, queue_lengths))], before it is
    sorted. *)
Definition queue_length_series (rows : list CustomerRow) : list (float * Z) :=
  let '(time_points, queue_lengths, _) := foldl series_step ([], [], 0) rows in
  zip time_points queue_lengths.

(** A source whose arrivals stop after the first: every inter-arrival time
    is [float('inf')]. *)
Definition no_second_arrival : Source := const_source infinity 2.

(** ** The order of binary64

    Devices of the proofs about times: the numbers that are not negative
    are ordered as the integers that measure them in units of the least
    positive number. *)

(** The value of a mantissa and exponent, scaled by [2 ^ 1074] so that it
    is an integer. *)
Definition scaled (m e : Z) : Z := m * 2 ^ (e + 1074).

(** The bound of the ranks of finite numbers. *)
Definition rank_inf : Z := 2 ^ 2100.

(** The rank of a number that is not negative: its value in units of the
    least positive number, [rank_inf] for the infinity. *)
Definition rank (x : spec_float) : Z :=
  match x with
  | S754_zero _ => 0
  | S754_finite false m e => scaled (Zpos m) e
  | S754_infinity false => rank_inf
  | _ => -1
  end.

(** A mantissa and exponent in the canonical form of binary64. *)
Definition canon (m : positive) (e : Z) : Prop :=
  fexp prec emax (Zpos (digits2_pos m) + e) = e /\ e <= 971.

(** The numbers that are not negative and not NaN. *)
Definition nonneg (x : spec_float) : Prop :=
  match x with
  | S754_zero _ | S754_finite false _ _ | S754_infinity false => True
  | _ => False
  end.

(** The rank of a float. *)
Definition rk (x : float) : Z := rank (Prim2SF x).

(** The least value that rounds to the infinity. *)
Definition overflow_threshold : Z := (2 ^ 54 - 1) * 2 ^ 2044.

(** ** The times of a run *)

(** The times of a run are in order: the clock is not negative, neither
    pending event is before it, the pending arrival is at a finite time,
    every customer arrived at a finite time, not before time 0, by the
    time of the clock, has a service time that is not negative, and if it
    has been put in service, this was not before it arrived. *)
Definition times_ordered (s : Sim) : Prop :=
  (0 <=? clock s)%float = true /\
  (clock s <=? next_arrival s)%float = true /\
  (clock s <=? next_departure s)%float = true /\
  below_inf (next_arrival s) = true /\
  forall r c, customers s !! r = Some c ->
    (0 <=? service_time c)%float = true /\
    (0 <=? arrival_time c)%float = true /\
    below_inf (arrival_time c) = true /\
    (arrival_time c <=? clock s)%float = true /\
    (r ∉ queue s -> (arrival_time c <=? service_start c)%float = true).

(** ** The draws a run uses *)

(** The number of the service-time draw that gives customer [r] of a run
    for [n] customers its service time: one draw is made before the loop,
    one for each customer, and one more with each arrival that was
    scheduled. *)
Definition service_index (n : Z) (r : nat) : nat :=
  (1 + r + Nat.min r (Z.to_nat (n - 2)))%nat.

(** Every duration drawn so far has been used as it is: a service time
    as the service time of a customer, an inter-arrival time added to the
    arrival time of the customer whose arrival scheduled the next one. *)
Definition draws_used (src : Source) (s : Sim) : Prop :=
  ia_calls s
  = Nat.min (length (customers s)) (Z.to_nat (num_customers s - 2)) /\
  sv_calls s = (1 + length (customers s) + ia_calls s)%nat /\
  (forall r c, customers s !! r = Some c ->
     service_time c = service_draw src (service_index (num_customers s) r)) /\
  (forall c, customers s !! 0%nat = Some c -> arrival_time c = 0%float) /\
  (forall r c c',
     customers s !! r = Some c -> customers s !! S r = Some c' ->
     Z.of_nat r + 2 < num_customers s ->
     arrival_time c' = (arrival_time c + interarrival_draw src r)%float) /\
  (customers s = [] -> next_arrival s = 0%float) /\
  (forall c, customers s !! (length (customers s) - 1)%nat = Some c ->
     len (customers s) + 1 < num_customers s ->
     next_arrival s
     = (arrival_time c
        + interarrival_draw src (length (customers s) - 1))%float).

(** ** The departures of a run *)




(** ** Particular sources *)


(** Durations of the ranges of the program whose sum is rounded: an
    inter-arrival time of 6 and a service time of [1 + 2 ^ -52]
    minutes. *)
Definition rounding : Source := const_source 6 0x1.0000000000001p+0.


(** ** Particular runs

    A source that always returns the same two durations, both within the
    ranges of the program. *)
Definition demo : Source := const_source 3 2.

(** The state every single-customer run is left in, [x] being the service
    time drawn for the customer. *)
Definition stuck1 (x : float) : Sim :=
  mkSim 1 [mkCustomer 0 0 x 0 x] 0 true [] 0 0 x
        (mkMetrics 0 0 0 0 0 None None) 0 2.

(** The states of a two-customer run before and after the third pass, [x]
    and [y] being the service times drawn for the two customers. *)
Definition queued2 (x y : float) : Sim :=
  mkSim 2 [mkCustomer 0 0 x 0 x; mkCustomer 1 0 y 0 0] 0 true [1%nat] 0 0 x
        (mkMetrics 0 0 1 0 0 None None) 0 3.

Definition stuck2 (x y : float) : Sim :=
  mkSim 2 [mkCustomer 0 0 x 0 x; mkCustomer 1 0 y 0 y] 0 true [] 0 0 y
        (mkMetrics 0 0 1 0 y None None) 0 3.

(** A source whose draws are all 3.0. *)
Definition threes : Source := const_source 3 3.

(** The state a three-customer run is in from its sixth pass on when every
    draw is 3.0: nothing is pending but the stale arrival at time 3, at
    which customer 0 departed. *)
Definition spinning (m : Metrics) : Sim :=
  mkSim 3 [mkCustomer 0 0 3 0 3; mkCustomer 1 3 3 3 6; mkCustomer 2 3 3 3 6]
        3 false [] 3 3 Py.inf m 1 5.

(** The sums after customer 0 has been handled as departing once more. *)
Definition departed_again (m : Metrics) : Metrics :=
  mkMetrics (total_waiting_time m + 0) (total_system_time m + 3)
            (max_queue_length m) (server_utilization m) (busy_time m + 3)
            (average_waiting_time m) (average_system_time m).

(** ** Facts about binary64 used below *)

Section FloatFacts.

Local Open Scope float_scope.

Ltac to_spec :=
  unfold below_inf, finite, Py.inf, Py.min in *;
  repeat first [ rewrite FloatAxioms.ltb_spec in *
               | rewrite FloatAxioms.leb_spec in *
               | rewrite FloatAxioms.eqb_spec in *
               | rewrite FloatAxioms.abs_spec in *
               | rewrite FloatAxioms.sub_spec in *
               | rewrite FloatAxioms.add_spec in *
               | rewrite FloatAxioms.opp_spec in * ].

Lemma Prim2SF_inf : Prim2SF infinity = S754_infinity false.
Proof. reflexivity. Qed.

Lemma Prim2SF_zero : Prim2SF 0 = S754_zero false.
Proof. reflexivity. Qed.

Lemma below_inf_neq_inf (x : float) :
  below_inf x = true -> (x =? Py.inf) = false.
Proof.
  to_spec. rewrite Prim2SF_inf.
  destruct (Prim2SF x) as [[]|[]| |[] m e]; cbn; congruence.
Qed.

Lemma min_below_inf (a b : float) :
  below_inf a = true -> below_inf (Py.min a b) = true.
Proof.
  intros Ha. unfold Py.min. destruct (b <? a) eqn:Hba; [|exact Ha].
  revert Ha Hba. to_spec. rewrite Prim2SF_inf.
  destruct (Prim2SF a) as [[]|[]| |[] ma ea],
           (Prim2SF b) as [[]|[]| |[] mb eb]; cbn; congruence.
Qed.


Lemma sub_zero_l (t : float) : (0 <? t) = true -> 0 - t = - t.
Proof.
  intros H. apply Prim2SF_inj. revert H. to_spec. rewrite Prim2SF_zero.
  destruct (Prim2SF t) as [[]|[]| |[] m e]; cbn; congruence.
Qed.

Lemma opp_pos_neg (t : float) : (0 <? t) = true -> (- t <? 0) = true.
Proof.
  to_spec. rewrite Prim2SF_zero.
  destruct (Prim2SF t) as [[]|[]| |[] m e]; cbn; congruence.
Qed.

Lemma abs_sub_zero_l (x : float) : abs (0 - x) = abs x.
Proof.
  apply Prim2SF_inj. to_spec. rewrite Prim2SF_zero.
  destruct (Prim2SF x) as [[]|[]| |[] m e]; reflexivity.
Qed.

Lemma sub_diag_finite (x : float) : finite x = true -> x - x = 0.
Proof.
  intros H. apply Prim2SF_inj. revert H. to_spec.
  rewrite Prim2SF_inf, Prim2SF_zero.
  destruct (Prim2SF x) as [[]|[]| |s m e]; cbn; try congruence.
  intros _. unfold SF64sub, SFsub. rewrite Z.sub_diag. reflexivity.
Qed.

Lemma departs_at_own_time (c : Customer) :
  finite (departure_time c) = true ->
  departs_at (departure_time c) c = true.
Proof.
  intros H. unfold departs_at. rewrite (sub_diag_finite _ H). reflexivity.
Qed.

End FloatFacts.

(** ** The loop, one pass at a time *)

Section Loop.

Variable src : Source.

Lemma loop_body_break (s s' : Sim) :
  loop_body src s = Break s' -> s' = set_clock (next_event_time s) s.
Proof.
  unfold loop_body. cbn. repeat case_match; congruence.
Qed.

Lemma loop_body_raise (s s' : Sim) (e : Py.Exn) :
  loop_body src s = Raise e s' ->
  e = Py.StopIteration /\ s' = set_clock (next_event_time s) s.
Proof.
  unfold loop_body. cbn. repeat case_match; intros; simplify_eq; done.
Qed.

Lemma main_loop_S (fuel : nat) (s : Sim) :
  main_loop src (S fuel) s
  = if (clock s <? Py.inf)%float then
      match loop_body src s with
      | Continue s' => main_loop src fuel s'
      | Break s' => Exited s'
      | Raise e s' => Raised e s'
      end
    else Exited s.
Proof. reflexivity. Qed.

(** Passes made are not made again when the loop is observed longer. *)
Lemma main_loop_more (k fuel : nat) (s s' : Sim) :
  main_loop src k s = Running s' ->
  main_loop src (k + fuel) s = main_loop src fuel s'.
Proof.
  revert s. induction k as [|k IH]; intros s; cbn [main_loop Nat.add].
  - by intros [= ->].
  - destruct (clock s <? Py.inf)%float; [|done].
    destruct (loop_body src s); [apply IH|done|done].
Qed.

(** A property kept by every pass holds of whatever state the loop is
    left in. *)
Lemma main_loop_invariant (P : Sim -> Prop) :
  (forall s, P s -> P (set_clock (next_event_time s) s)) ->
  (forall s s', P s -> loop_body src s = Continue s' -> P s') ->
  forall fuel s, P s -> P (state_of (main_loop src fuel s)).
Proof.
  intros Hclock Hpass. induction fuel as [|fuel IH]; intros s Hs; cbn.
  - exact Hs.
  - destruct (clock s <? Py.inf)%float; [|exact Hs].
    destruct (loop_body src s) as [s'|s'|e s'] eqn:E; cbn.
    + apply IH. eauto.
    + apply loop_body_break in E as ->. auto.
    + apply loop_body_raise in E as [_ ->]. auto.
Qed.

(** *** What [handle_arrival] and [handle_departure] write *)

Lemma handle_arrival_server_busy (r : nat) (s : Sim) :
  server_busy (handle_arrival src r s) = true.
Proof.
  unfold handle_arrival.
  destruct (server_busy s) eqn:B; cbn; repeat case_match; cbn; done.
Qed.

Lemma handle_arrival_queue (r : nat) (s : Sim) :
  queue (handle_arrival src r s)
  = if server_busy s then queue s ++ [r] else queue s.
Proof.
  unfold handle_arrival.
  destruct (server_busy s) eqn:B; cbn; repeat case_match; cbn; done.
Qed.

Lemma handle_arrival_customers (r : nat) (s : Sim) :
  customers (handle_arrival src r s)
  = if server_busy s then customers s
    else alter (fun c => set_departure_time
                           (clock s + service_time c)%float c) r
           (alter (set_service_start (clock s)) r (customers s)).
Proof.
  unfold handle_arrival.
  destruct (server_busy s) eqn:B; cbn; repeat case_match; cbn; done.
Qed.

Lemma handle_arrival_next_departure (r : nat) (s : Sim) :
  next_departure (handle_arrival src r s)
  = if server_busy s then next_departure s
    else departure_time (deref (handle_arrival src r s) r).
Proof.
  unfold handle_arrival, deref.
  destruct (server_busy s) eqn:B; cbn; repeat case_match; cbn; done.
Qed.

(** The branch that does not schedule: [next_arrival] is left as it is. *)
Lemma handle_arrival_keeps_next_arrival (r : nat) (s : Sim) :
  num_customers s - 1 <= len (customers s) ->
  next_arrival (handle_arrival src r s) = next_arrival s.
Proof.
  intros H. unfold handle_arrival.
  destruct (server_busy s) eqn:B; cbn.
  - destruct (Z.ltb_spec (len (customers s)) (num_customers s - 1)); [lia|].
    reflexivity.
  - unfold len in *. rewrite !length_alter.
    destruct (Z.ltb_spec (Z.of_nat (length (customers s)))
                         (num_customers s - 1)); [lia|].
    reflexivity.
Qed.

Lemma handle_arrival_num_customers (r : nat) (s : Sim) :
  num_customers (handle_arrival src r s) = num_customers s.
Proof.
  unfold handle_arrival.
  destruct (server_busy s) eqn:B; cbn; repeat case_match; cbn; done.
Qed.

Lemma handle_arrival_length (r : nat) (s : Sim) :
  length (customers (handle_arrival src r s)) = length (customers s).
Proof.
  rewrite handle_arrival_customers.
  destruct (server_busy s); [done|]. by rewrite !length_alter.
Qed.

End Loop.

Section Departure.

Lemma handle_departure_queue (r : nat) (s : Sim) :
  queue (handle_departure r s) = tail (queue s).
Proof. destruct s as [? ? ? ? [|q rest] ? ? ? ? ? ?]; reflexivity. Qed.

Lemma handle_departure_server_busy (r : nat) (s : Sim) :
  server_busy (handle_departure r s)
  = match queue s with [] => false | _ :: _ => server_busy s end.
Proof. destruct s as [? ? ? ? [|q rest] ? ? ? ? ? ?]; reflexivity. Qed.

Lemma handle_departure_customers (r : nat) (s : Sim) :
  customers (handle_departure r s)
  = match queue s with
    | [] => customers s
    | q :: _ =>
        alter (fun c => set_departure_time
                          (clock s + service_time c)%float c) q
          (alter (set_service_start (clock s)) q (customers s))
    end.
Proof. destruct s as [? ? ? ? [|q rest] ? ? ? ? ? ?]; reflexivity. Qed.

Lemma handle_departure_next_departure (r : nat) (s : Sim) :
  next_departure (handle_departure r s)
  = match queue s with
    | [] => Py.inf
    | q :: _ => departure_time (deref (handle_departure r s) q)
    end.
Proof.
  destruct s as [? ? ? ? [|q rest] ? ? ? ? ? ?]; reflexivity.
Qed.

Lemma handle_departure_next_arrival (r : nat) (s : Sim) :
  next_arrival (handle_departure r s) = next_arrival s.
Proof. destruct s as [? ? ? ? [|q rest] ? ? ? ? ? ?]; reflexivity. Qed.

Lemma handle_departure_num_customers (r : nat) (s : Sim) :
  num_customers (handle_departure r s) = num_customers s.
Proof. destruct s as [? ? ? ? [|q rest] ? ? ? ? ? ?]; reflexivity. Qed.

Lemma handle_departure_length (r : nat) (s : Sim) :
  length (customers (handle_departure r s)) = length (customers s).
Proof.
  rewrite handle_departure_customers.
  destruct (queue s); [done|]. by rewrite !length_alter.
Qed.

(** The three sums after a departure. *)
Lemma handle_departure_metrics (r : nat) (s : Sim) :
  let m := metrics s in
  let m' := metrics (handle_departure r s) in
  let c := deref s r in
  total_waiting_time m' = (total_waiting_time m + waiting_time c)%float /\
  total_system_time m' = (total_system_time m + time_in_system c)%float /\
  busy_time m' = (busy_time m + service_time c)%float.
Proof. destruct s as [? ? ? ? [|q rest] ? ? ? ? ? ?]; repeat split. Qed.

End Departure.

(** ** The lookup of the departing customer *)

Section Lookup.

Context {A : Type} (p : A -> bool).

(** [next] returns the first object that satisfies the condition. *)
Lemma next_index_Some (l : list A) (r : nat) :
  Py.next_index p l = Some r <->
  (exists x, l !! r = Some x /\ p x = true) /\
  (forall j y, (j < r)%nat -> l !! j = Some y -> p y = false).
Proof.
  revert r. induction l as [|a l IH]; intros r; cbn.
  - split; [done|]. intros [(x & Hx & _) _]. done.
  - destruct (p a) eqn:Pa.
    + split.
      * intros [= <-]. split; [by exists a|]. intros j y Hj. lia.
      * intros [(x & Hx & Px) Hfirst]. destruct r as [|r]; [done|].
        specialize (Hfirst O a ltac:(lia) eq_refl). congruence.
    + rewrite fmap_Some. split.
      * intros (k & Hk & ->). apply IH in Hk as [Hk Hfirst].
        split; [exact Hk|].
        intros [|j] y Hj Hy; cbn in Hy; [congruence|].
        apply (Hfirst j); [lia|done].
      * intros [(x & Hx & Px) Hfirst].
        destruct r as [|r]; [cbn in Hx; congruence|].
        exists r. split; [|done]. apply IH. split; [by exists x|].
        intros j y Hj Hy. apply (Hfirst (S j) y); [lia|done].
Qed.

(** [next] raises exactly when no object satisfies the condition. *)
Lemma next_index_None (l : list A) :
  Py.next_index p l = None <-> Forall (fun x => p x = false) l.
Proof.
  induction l as [|a l IH]; cbn.
  - split; [constructor|done].
  - destruct (p a) eqn:Pa.
    + split; [done|]. intros H. inversion H; congruence.
    + destruct (Py.next_index p l) eqn:E; cbn.
      * split; [done|]. intros H. inversion H; subst.
        by apply IH in H3.
      * split; [|done]. intros _. constructor; [done|]. by apply IH.
Qed.

Lemma next_index_found (l : list A) (r : nat) (x : A) :
  l !! r = Some x -> p x = true ->
  exists r', Py.next_index p l = Some r' /\ (r' <= r)%nat.
Proof.
  intros Hx Px. destruct (Py.next_index p l) as [r'|] eqn:E.
  - exists r'. split; [done|]. apply next_index_Some in E as [_ Hfirst].
    destruct (decide (r' <= r)%nat); [done|].
    specialize (Hfirst r x ltac:(lia) Hx). congruence.
  - apply next_index_None in E. rewrite Forall_lookup in E.
    specialize (E r x Hx). cbn in E. congruence.
Qed.

(** An object that satisfies the condition is the one returned when none
    before it does. *)
Lemma next_index_skip (before after : list A) (x : A) :
  Forall (fun y => p y = false) before -> p x = true ->
  Py.next_index p (before ++ x :: after) = Some (length before).
Proof.
  intros Hbefore Px. induction Hbefore as [|b l Hb _ IH]; cbn.
  - by rewrite Px.
  - by rewrite Hb, IH.
Qed.

End Lookup.

(** ** Invariants of the station *)

Section Invariants.

Variable src : Source.

(** A pass that continues took one of the two branches. *)
Lemma loop_body_continue (s s' : Sim) :
  loop_body src s = Continue s' ->
  let s0 := set_clock (next_event_time s) s in
  (arrival_due s0 = true /\
   s' = update_next_event_time (process_arrival src s0)) \/
  (arrival_due s0 = false /\
   exists r, Py.next_index (departs_at (clock s0)) (customers s0) = Some r /\
             s' = update_next_event_time (handle_departure r s0)).
Proof.
  unfold loop_body. cbv zeta.
  destruct (clock _ =? Py.inf)%float; [done|].
  destruct (arrival_due _) eqn:G.
  - intros [= <-]. by left.
  - destruct (Py.next_index _ _) as [r|] eqn:E; [|done].
    intros [= <-]. right. split; [done|]. by exists r.
Qed.

Lemma customers_update_next_event_time (s : Sim) :
  customers (update_next_event_time s) = customers s.
Proof. reflexivity. Qed.

Lemma num_customers_update_next_event_time (s : Sim) :
  num_customers (update_next_event_time s) = num_customers s.
Proof. reflexivity. Qed.

Lemma next_arrival_update_next_event_time (s : Sim) :
  next_arrival (update_next_event_time s) = next_arrival s.
Proof. reflexivity. Qed.

Lemma clock_update_next_event_time (s : Sim) :
  clock (update_next_event_time s) = clock s.
Proof. reflexivity. Qed.

Lemma next_event_time_update_next_event_time (s : Sim) :
  next_event_time (update_next_event_time s)
  = Py.min (next_arrival s) (next_departure s).
Proof. reflexivity. Qed.

Lemma process_arrival_eq (s : Sim) :
  process_arrival src s
  = handle_arrival src (length (customers s))
      (set_customers
         (customers s ++ [new_Customer (len (customers s)) (next_arrival s)
                                       (service_draw src (sv_calls s))])
         (snd (generate_service_time src s))).
Proof. reflexivity. Qed.

Lemma station_inv_init (n : Z) : station_inv (start src n).
Proof.
  split; [done|]. split; [constructor|]. intros B. cbn in B. done.
Qed.

Lemma station_inv_fields (s s' : Sim) :
  queue s' = queue s -> server_busy s' = server_busy s ->
  customers s' = customers s -> next_departure s' = next_departure s ->
  station_inv s -> station_inv s'.
Proof.
  unfold station_inv, station_ok, refs_valid, in_service.
  intros -> -> -> ->. done.
Qed.

Lemma station_inv_arrival (s : Sim) :
  station_inv s -> station_inv (process_arrival src s).
Proof.
  intros (Hok & Hrefs & Hserv). rewrite process_arrival_eq.
  set (c := new_Customer _ _ _). set (s1 := set_customers _ _).
  assert (customers s1 = customers s ++ [c]) as Hcs by done.
  assert (queue s1 = queue s) as Hq by done.
  assert (server_busy s1 = server_busy s) as Hb by done.
  assert (next_departure s1 = next_departure s) as Hd by done.
  assert (length (customers s) < length (customers s1))%nat as Hlen
    by (rewrite Hcs, length_app; cbn; lia).
  split; [|split].
  - unfold station_ok. rewrite handle_arrival_server_busy.
    destruct (queue (handle_arrival _ _ _)); reflexivity.
  - unfold refs_valid in *.
    rewrite handle_arrival_queue, handle_arrival_length, Hb, Hq.
    destruct (server_busy s).
    + apply Forall_app. split.
      * eapply Forall_impl; [exact Hrefs|]. intros x Hx. cbn in *. lia.
      * constructor; [exact Hlen|constructor].
    + eapply Forall_impl; [exact Hrefs|]. intros x Hx. cbn in *. lia.
  - intros _. rewrite handle_arrival_next_departure, Hb.
    destruct (server_busy s) eqn:B.
    + destruct (Hserv B) as (r & c0 & Hr & Hc0).
      exists r, c0. rewrite handle_arrival_customers, Hb, Hcs, Hd.
      split; [|done]. by apply lookup_app_l_Some.
    + set (s2 := handle_arrival _ _ _).
      assert (length (customers s) < length (customers s2))%nat as Hlt
        by (unfold s2; rewrite handle_arrival_length; exact Hlen).
      apply lookup_lt_is_Some in Hlt as [c2 Hc2].
      exists (length (customers s)), c2. split; [done|].
      unfold deref. by rewrite Hc2.
Qed.

Lemma station_inv_departure (r : nat) (s : Sim) :
  station_inv s -> station_inv (handle_departure r s).
Proof.
  intros (Hok & Hrefs & Hserv). unfold station_ok, refs_valid in *.
  split; [|split].
  - unfold station_ok.
    rewrite handle_departure_queue, handle_departure_server_busy.
    destruct (queue s) as [|q [|q' rest]]; done.
  - unfold refs_valid.
    rewrite handle_departure_queue, handle_departure_length.
    destruct (queue s) as [|q rest]; [constructor|].
    by inversion Hrefs.
  - intros B. rewrite handle_departure_server_busy in B.
    rewrite handle_departure_next_departure.
    destruct (queue s) as [|q rest] eqn:Q; [done|].
    inversion Hrefs as [|? ? Hq _]; subst.
    rewrite <- (handle_departure_length r) in Hq.
    apply lookup_lt_is_Some in Hq as [c Hc].
    exists q, c. split; [done|]. unfold deref. by rewrite Hc.
Qed.

Lemma station_inv_update (s : Sim) :
  station_inv s -> station_inv (update_next_event_time s).
Proof. by apply station_inv_fields. Qed.

Lemma station_inv_pass (s s' : Sim) :
  station_inv s -> loop_body src s = Continue s' -> station_inv s'.
Proof.
  intros Hs Hpass.
  assert (station_inv (set_clock (next_event_time s) s)) as Hs0
    by (by eapply station_inv_fields; [..|exact Hs]).
  apply loop_body_continue in Hpass as [[_ ->]|[_ (r & _ & ->)]];
    apply station_inv_update.
  - by apply station_inv_arrival.
  - by apply station_inv_departure.
Qed.

(** The invariant holds of every state a run goes through. *)
Lemma station_inv_run (n : Z) (fuel : nat) :
  station_inv (state_of (main_loop src fuel (start src n))).
Proof.
  apply main_loop_invariant.
  - intros s Hs. by eapply station_inv_fields; [..|exact Hs].
  - apply station_inv_pass.
  - apply station_inv_init.
Qed.

(** *** The customers that wait *)

Lemma waiting_unserved_fields (s s' : Sim) :
  queue s' = queue s -> customers s' = customers s ->
  waiting_unserved s -> waiting_unserved s'.
Proof. unfold waiting_unserved, refs_valid. intros -> ->. done. Qed.

Lemma waiting_unserved_arrival (s : Sim) :
  waiting_unserved s -> waiting_unserved (process_arrival src s).
Proof.
  intros (Hnd & Hrefs & Hdef). rewrite process_arrival_eq.
  set (c := new_Customer _ _ _). set (s1 := set_customers _ _).
  assert (customers s1 = customers s ++ [c]) as Hcs by done.
  assert (queue s1 = queue s) as Hq by done.
  assert (server_busy s1 = server_busy s) as Hb by done.
  assert (forall r, r ∈ queue s -> (r < length (customers s))%nat) as Hlt
    by (intros r Hr; unfold refs_valid in Hrefs;
        rewrite Forall_forall in Hrefs; auto).
  assert (forall r c0, r ∈ queue s ->
            (customers s ++ [c]) !! r = Some c0 ->
            service_start c0 = 0%float /\ departure_time c0 = 0%float)
    as Hold.
  { intros r c0 Hr Hc0. rewrite lookup_app_l in Hc0 by auto. eauto. }
  unfold waiting_unserved, refs_valid.
  rewrite handle_arrival_queue, handle_arrival_customers, Hb, Hq, Hcs.
  destruct (server_busy s); (split; [|split]).
  - apply NoDup_app. split; [done|]. split; [|apply NoDup_singleton].
    intros r Hr ->%list_elem_of_singleton. specialize (Hlt _ Hr). lia.
  - apply Forall_app. split.
    + apply Forall_forall. intros r Hr. specialize (Hlt _ Hr).
      rewrite length_app. cbn. lia.
    + constructor; [|constructor]. rewrite length_app. cbn. lia.
  - intros r c0 [Hr| ->%list_elem_of_singleton]%elem_of_app Hc0; [eauto|].
    rewrite list_lookup_middle in Hc0 by done. by injection Hc0 as <-.
  - done.
  - apply Forall_forall. intros r Hr. specialize (Hlt _ Hr).
    rewrite !length_alter, length_app. cbn. lia.
  - intros r c0 Hr Hc0. specialize (Hlt _ Hr).
    rewrite !list_lookup_alter_ne in Hc0 by lia. eauto.
Qed.

Lemma waiting_unserved_departure (r : nat) (s : Sim) :
  waiting_unserved s -> waiting_unserved (handle_departure r s).
Proof.
  intros (Hnd & Hrefs & Hdef). unfold waiting_unserved, refs_valid in *.
  rewrite handle_departure_queue, handle_departure_customers.
  destruct (queue s) as [|q rest]; [done|].
  apply NoDup_cons in Hnd as [Hq Hnd]. inversion Hrefs; subst.
  split; [done|]. split.
  - rewrite !length_alter. done.
  - intros r0 c0 Hr0 Hc0.
    assert (q <> r0) as Hne by (intros ->; done).
    rewrite !list_lookup_alter_ne in Hc0 by done.
    apply (Hdef r0 c0); [by right|done].
Qed.

Lemma waiting_unserved_update (s : Sim) :
  waiting_unserved s -> waiting_unserved (update_next_event_time s).
Proof. by apply waiting_unserved_fields. Qed.

Lemma waiting_unserved_run (n : Z) (fuel : nat) :
  waiting_unserved (state_of (main_loop src fuel (start src n))).
Proof.
  apply main_loop_invariant.
  - intros s Hs. by eapply waiting_unserved_fields; [..|exact Hs].
  - intros s s' Hs Hpass.
    assert (waiting_unserved (set_clock (next_event_time s) s)) as Hs0
      by (by eapply waiting_unserved_fields; [..|exact Hs]).
    apply loop_body_continue in Hpass as [[_ ->]|[_ (r & _ & ->)]];
      apply waiting_unserved_update.
    + by apply waiting_unserved_arrival.
    + by apply waiting_unserved_departure.
  - split; [constructor|]. split; [constructor|]. intros r c Hr.
    by apply elem_of_nil in Hr.
Qed.

(** *** The customers that have been put in service *)

Lemma start_service_lookup (l : list Customer) (now : float) (r : nat)
      (c : Customer) :
  alter (fun c => set_departure_time (now + service_time c)%float c) r
        (alter (set_service_start now) r l) !! r = Some c ->
  departure_time c = (service_start c + service_time c)%float.
Proof.
  rewrite !list_lookup_alter_eq. destruct (l !! r) as [c0|]; [|done].
  cbn. by intros [= <-].
Qed.

Lemma served_consistent_fields (s s' : Sim) :
  queue s' = queue s -> customers s' = customers s ->
  served_consistent s -> served_consistent s'.
Proof. unfold served_consistent. intros -> ->. done. Qed.

Lemma served_consistent_arrival (s : Sim) :
  served_consistent s -> served_consistent (process_arrival src s).
Proof.
  intros Hs. rewrite process_arrival_eq.
  set (c := new_Customer _ _ _). set (s1 := set_customers _ _).
  assert (customers s1 = customers s ++ [c]) as Hcs by done.
  assert (queue s1 = queue s) as Hq by done.
  assert (server_busy s1 = server_busy s) as Hb by done.
  unfold served_consistent.
  rewrite handle_arrival_queue, handle_arrival_customers, Hb, Hq, Hcs.
  intros r c0 Hc0 Hr.
  destruct (decide (r = length (customers s))) as [->|Hne].
  - destruct (server_busy s).
    + exfalso. apply Hr, elem_of_app. right. by apply list_elem_of_singleton.
    + by apply start_service_lookup in Hc0.
  - assert (customers s !! r = Some c0 /\ r ∉ queue s) as [Hc Hnq].
    { destruct (server_busy s).
      - split; [|intros ?; apply Hr, elem_of_app; by left].
        apply lookup_app_Some in Hc0 as [Hc0|[Hge Hc0]]; [done|].
        apply list_lookup_singleton_Some in Hc0 as [? _]. lia.
      - split; [|done]. rewrite !list_lookup_alter_ne in Hc0 by done.
        apply lookup_app_Some in Hc0 as [Hc0|[Hge Hc0]]; [done|].
        apply list_lookup_singleton_Some in Hc0 as [? _]. lia. }
    by apply (Hs r c0).
Qed.

Lemma served_consistent_departure (r : nat) (s : Sim) :
  served_consistent s -> served_consistent (handle_departure r s).
Proof.
  intros Hs. unfold served_consistent.
  rewrite handle_departure_queue, handle_departure_customers.
  destruct (queue s) as [|q rest] eqn:Q.
  { intros r0 c0 Hc0 _. apply (Hs r0 c0 Hc0). rewrite Q. apply not_elem_of_nil. }
  intros r0 c0 Hc0 Hr0. cbn in Hr0.
  destruct (decide (r0 = q)) as [->|Hne].
  - by apply start_service_lookup in Hc0.
  - rewrite !list_lookup_alter_ne in Hc0 by done.
    apply (Hs r0 c0 Hc0). rewrite Q. intros [?|?]%elem_of_cons; done.
Qed.

Lemma served_consistent_update (s : Sim) :
  served_consistent s -> served_consistent (update_next_event_time s).
Proof. by apply served_consistent_fields. Qed.

Lemma served_consistent_run (n : Z) (fuel : nat) :
  served_consistent (state_of (main_loop src fuel (start src n))).
Proof.
  apply main_loop_invariant.
  - intros s Hs. by eapply served_consistent_fields; [..|exact Hs].
  - intros s s' Hs Hpass.
    assert (served_consistent (set_clock (next_event_time s) s)) as Hs0
      by (by eapply served_consistent_fields; [..|exact Hs]).
    apply loop_body_continue in Hpass as [[_ ->]|[_ (r & _ & ->)]];
      apply served_consistent_update.
    + by apply served_consistent_arrival.
    + by apply served_consistent_departure.
  - intros r c Hc. done.
Qed.

(** *** The budget of customers *)

Lemma within_budget_run (n : Z) (fuel : nat) :
  within_budget n (state_of (main_loop src fuel (start src n))).
Proof.
  apply main_loop_invariant.
  - intros s Hs. exact Hs.
  - intros s s' [Hn Hlen] Hpass. unfold within_budget.
    apply loop_body_continue in Hpass as [[Hdue ->]|[_ (r & _ & ->)]].
    + rewrite customers_update_next_event_time,
        num_customers_update_next_event_time, process_arrival_eq.
      unfold len in *.
      rewrite handle_arrival_length, handle_arrival_num_customers.
      cbn. split; [done|].
      unfold arrival_due in Hdue. apply andb_true_iff in Hdue as [_ Hdue].
      apply Z.ltb_lt in Hdue. cbn in Hdue. unfold len in Hdue.
      rewrite length_app. cbn. lia.
    + rewrite customers_update_next_event_time,
        num_customers_update_next_event_time.
      unfold len in *.
      rewrite handle_departure_length, handle_departure_num_customers.
      cbn. done.
  - split; [done|]. cbn. unfold len. cbn. lia.
Qed.

End Invariants.

(** ** Once the arrivals are exhausted *)

Section Exhausted.

Variable src : Source.

Local Arguments handle_arrival : simpl never.
Local Arguments handle_departure : simpl never.
Local Arguments process_arrival : simpl never.

Lemma handle_arrival_clock (r : nat) (s : Sim) :
  clock (handle_arrival src r s) = clock s.
Proof.
  unfold handle_arrival.
  destruct (server_busy s) eqn:B; cbn; repeat case_match; cbn; done.
Qed.

Lemma handle_departure_clock (r : nat) (s : Sim) :
  clock (handle_departure r s) = clock s.
Proof. destruct s as [? ? ? ? [|q rest] ? ? ? ? ? ?]; reflexivity. Qed.

Lemma process_arrival_keeps_next_arrival (s : Sim) :
  num_customers s - 1 <= len (customers s) ->
  next_arrival (process_arrival src s) = next_arrival s.
Proof.
  intros H. rewrite process_arrival_eq, handle_arrival_keeps_next_arrival.
  - reflexivity.
  - cbn. unfold len in *. rewrite length_app. cbn. lia.
Qed.

Lemma process_arrival_length (s : Sim) :
  length (customers (process_arrival src s)) = S (length (customers s)).
Proof.
  rewrite process_arrival_eq, handle_arrival_length. cbn.
  rewrite length_app. cbn. lia.
Qed.

Lemma process_arrival_num_customers (s : Sim) :
  num_customers (process_arrival src s) = num_customers s.
Proof. rewrite process_arrival_eq, handle_arrival_num_customers. done. Qed.

Lemma process_arrival_clock (s : Sim) :
  clock (process_arrival src s) = clock s.
Proof. rewrite process_arrival_eq, handle_arrival_clock. done. Qed.

Lemma arrivals_exhausted_pass (s s' : Sim) :
  arrivals_exhausted s -> loop_body src s = Continue s' ->
  arrivals_exhausted s'.
Proof.
  intros (Hn & Ha & He & Hc) Hpass.
  apply loop_body_continue in Hpass as [[_ ->]|[_ (r & _ & ->)]];
    unfold arrivals_exhausted;
    rewrite num_customers_update_next_event_time,
      customers_update_next_event_time, next_arrival_update_next_event_time,
      next_event_time_update_next_event_time, clock_update_next_event_time.
  - rewrite process_arrival_keeps_next_arrival by exact Hn.
    rewrite process_arrival_num_customers, process_arrival_clock.
    unfold len in *. rewrite process_arrival_length. cbn.
    repeat split; [lia|done|by apply min_below_inf|done].
  - rewrite handle_departure_next_arrival, handle_departure_num_customers,
      handle_departure_clock.
    unfold len in *. rewrite handle_departure_length. cbn.
    repeat split; [lia|done|by apply min_below_inf|done].
Qed.

Lemma arrivals_exhausted_no_break (s s' : Sim) :
  arrivals_exhausted s -> loop_body src s = Break s' -> False.
Proof.
  intros (_ & _ & He & _). unfold loop_body. cbn.
  rewrite (below_inf_neq_inf _ He). repeat case_match; done.
Qed.

(** With the stale arrival in its slot the loop cannot be left normally:
    it goes on or it raises. *)
Lemma arrivals_exhausted_never_exits (fuel : nat) (s : Sim) :
  arrivals_exhausted s -> exited (main_loop src fuel s) = false.
Proof.
  revert s. induction fuel as [|fuel IH]; intros s Hs; cbn; [done|].
  destruct Hs as (Hn & Ha & He & Hc). unfold below_inf in Hc. rewrite Hc.
  destruct (loop_body src s) as [s'|s'|e s'] eqn:E.
  - apply IH. eapply arrivals_exhausted_pass; [|exact E]. done.
  - exfalso. eapply arrivals_exhausted_no_break; [|exact E]. done.
  - done.
Qed.

Lemma arrivals_exhausted_start (n : Z) :
  n <= 1 -> arrivals_exhausted (start src n).
Proof. intros H. repeat split. cbn. unfold len. cbn. lia. Qed.


End Exhausted.

(** ** Runs on draws of the stated ranges *)

Section InRange.

Local Open Scope float_scope.

Lemma Prim2SF_one : Prim2SF 1 = S754_finite false 4503599627370496 (-52).
Proof. vm_compute. reflexivity. Qed.

Lemma Prim2SF_tolerance :
  Prim2SF tolerance = S754_finite false 4722366482869645 (-72).
Proof. vm_compute. reflexivity. Qed.

(** What is used of a duration that is at least one minute. *)
Lemma at_least_one (x : float) :
  (1 <=? x) = true ->
  0 + x = x /\ (x <? 0) = false /\ (0 <=? x) = true /\ (0 =? x) = false /\
  (abs (x - 0) <? tolerance) = false.
Proof.
  intros H. rewrite FloatAxioms.leb_spec, Prim2SF_one in H.
  enough (Prim2SF (0 + x) = Prim2SF x /\ (x <? 0) = false /\
          (0 <=? x) = true /\ (0 =? x) = false /\
          (abs (x - 0) <? tolerance) = false)
    as (Hadd & Hrest); [split; [by apply Prim2SF_inj|exact Hrest]|].
  rewrite FloatAxioms.add_spec, FloatAxioms.ltb_spec, FloatAxioms.leb_spec,
    FloatAxioms.eqb_spec, FloatAxioms.ltb_spec, FloatAxioms.abs_spec, FloatAxioms.sub_spec,
    Prim2SF_zero, Prim2SF_tolerance.
  destruct (Prim2SF x) as [sx|[]| |[] m e];
    try (lazy in H; discriminate H).
  - repeat split.
  - unfold SFleb, SFcompare in H.
    repeat split. unfold SF64sub, SFsub, SFabs, SFltb, SFcompare.
    destruct (Z.compare_spec (-52) e) as [Heq|Hlt|Hgt];
      [| |discriminate H];
      (assert ((e ?= -72)%Z = Gt) as -> by (apply Z.compare_gt_iff; lia));
      reflexivity.
Qed.

Lemma demo_in_range : in_range demo.
Proof. intros k. repeat split. Qed.

Lemma single_customer_passes (src : Source) :
  in_range src ->
  let s := stuck1 (service_draw src 1) in
  loop_body src (start src 1) = Continue s /\
  loop_body src s = Raise Py.StopIteration s.
Proof.
  intros Hsrc. destruct (Hsrc 1%nat) as (_ & _ & Hx & _).
  set (x := service_draw src 1) in *.
  destruct (at_least_one x Hx) as (Hadd & Hlt & Hle & Heq & Habs).
  unfold tolerance in Habs. split.
  - lazy -[service_draw]. fold x. rewrite !Hadd, !Hlt. reflexivity.
  - lazy -[service_draw]. fold x. rewrite Hle, Habs. reflexivity.
Qed.

Lemma two_customer_passes (src : Source) :
  in_range src ->
  let x := service_draw src 1 in
  let y := service_draw src 2 in
  main_loop src 2 (start src 2) = Running (queued2 x y) /\
  Py.next_index (departs_at 0) (customers (queued2 x y)) = Some 1%nat /\
  loop_body src (queued2 x y) = Continue (stuck2 x y) /\
  loop_body src (stuck2 x y) = Raise Py.StopIteration (stuck2 x y).
Proof.
  intros Hsrc x y.
  destruct (Hsrc 1%nat) as (_ & _ & Hx & _).
  destruct (Hsrc 2%nat) as (_ & _ & Hy & _). fold x in Hx. fold y in Hy.
  destruct (at_least_one x Hx) as (Hadd & Hlt & Hle & Heq & Habs).
  destruct (at_least_one y Hy) as (Hadd' & Hlt' & Hle' & Heq' & Habs').
  unfold tolerance in Habs, Habs'.
  assert (loop_body src (start src 2)
          = Continue (mkSim 2 [mkCustomer 0 0 x 0 x] 0 true [] 0 0 x
                            (mkMetrics 0 0 0 0 0 None None) 0 2)) as P1.
  { lazy -[service_draw]. fold x. rewrite !Hadd, !Hlt. reflexivity. }
  assert (loop_body src (mkSim 2 [mkCustomer 0 0 x 0 x] 0 true [] 0 0 x
                               (mkMetrics 0 0 0 0 0 None None) 0 2)
          = Continue (queued2 x y)) as P2.
  { lazy -[service_draw]. fold x y. rewrite Hle, !Hlt. reflexivity. }
  repeat split.
  - cbn [main_loop]. rewrite P1. cbn [clock]. rewrite P2. reflexivity.
  - lazy -[service_draw]. fold x. rewrite Habs. reflexivity.
  - lazy -[service_draw]. fold x y. rewrite Hle, Habs, !Hadd', !Hlt'.
    reflexivity.
  - lazy -[service_draw]. fold x y. rewrite Hle', Habs, Habs'. reflexivity.
Qed.

End InRange.

(** ** A run that never ends *)

Section Spinning.

Lemma spinning_pass (m : Metrics) :
  loop_body threes (spinning m) = Continue (spinning (departed_again m)).
Proof. reflexivity. Qed.

Lemma spinning_forever (fuel : nat) (m : Metrics) :
  exists m', main_loop threes fuel (spinning m) = Running (spinning m').
Proof.
  revert m. induction fuel as [|fuel IH]; intros m.
  - by exists m.
  - rewrite main_loop_S, spinning_pass. apply IH.
Qed.

(** With three customers and every draw equal to 3.0 (the second customer
    arrives at the very time the first departs), [run] neither returns nor
    raises: the lookup finds customer 0 at the stale arrival time in every
    pass from the sixth on. *)
Lemma run_can_spin_forever (fuel : nat) :
  exists s, run threes fuel 3 = Unfinished s.
Proof.
  unfold run.
  destruct (le_lt_dec 6 fuel) as [Hge|Hlt].
  - replace fuel with (6 + (fuel - 6))%nat by lia.
    rewrite (main_loop_more _ 6 _ _
               (spinning (mkMetrics 0 9 2 0 9 None None)))
      by (vm_compute; reflexivity).
    destruct (spinning_forever (fuel - 6) (mkMetrics 0 9 2 0 9 None None))
      as [m' ->].
    by eexists.
  - do 6 (destruct fuel as [|fuel];
          [eexists; vm_compute; reflexivity|]).
    lia.
Qed.

End Spinning.

(** ** More of what a run keeps *)

Section MoreInvariants.

Variable src : Source.

Lemma max_bounds (a b : Z) : a <= Py.max a b /\ b <= Py.max a b.
Proof. unfold Py.max. destruct (Z.ltb_spec a b); lia. Qed.

Lemma max_least (a b c : Z) : a <= c -> b <= c -> Py.max a b <= c.
Proof. unfold Py.max. destruct (Z.ltb_spec a b); lia. Qed.

Lemma handle_arrival_max_queue_length (r : nat) (s : Sim) :
  max_queue_length (metrics (handle_arrival src r s))
  = Py.max (max_queue_length (metrics s))
           (len (queue (handle_arrival src r s))).
Proof.
  unfold handle_arrival.
  destruct (server_busy s) eqn:B; cbn; repeat case_match; cbn; done.
Qed.

Lemma handle_departure_max_queue_length (r : nat) (s : Sim) :
  max_queue_length (metrics (handle_departure r s))
  = max_queue_length (metrics s).
Proof. destruct s as [? ? ? ? [|q rest] ? ? ? ? ? ?]; reflexivity. Qed.

Lemma handle_arrival_draws (r : nat) (s : Sim) :
  exists k, (k <= 1)%nat /\
    ia_calls (handle_arrival src r s) = (ia_calls s + k)%nat /\
    sv_calls (handle_arrival src r s) = (sv_calls s + k)%nat.
Proof.
  unfold handle_arrival.
  destruct (server_busy s) eqn:B; cbn; repeat case_match; cbn;
    first [ exists 1%nat; repeat split; lia | exists 0%nat; repeat split; lia ].
Qed.

Lemma handle_departure_draws (r : nat) (s : Sim) :
  ia_calls (handle_departure r s) = ia_calls s /\
  sv_calls (handle_departure r s) = sv_calls s.
Proof. destruct s as [? ? ? ? [|q rest] ? ? ? ? ? ?]; split; reflexivity. Qed.

Lemma handle_arrival_next_event (r : nat) (s : Sim) :
  next_departure (update_next_event_time (handle_arrival src r s))
  = next_departure (handle_arrival src r s).
Proof. reflexivity. Qed.

(** *** The records *)

(** An arrival leaves the records of the earlier customers as they are. *)
Lemma process_arrival_lookup_old (s : Sim) (r : nat) :
  (r < length (customers s))%nat ->
  customers (process_arrival src s) !! r = customers s !! r.
Proof.
  intros Hr. rewrite process_arrival_eq, handle_arrival_customers.
  cbn [customers server_busy set_customers generate_service_time snd].
  destruct (server_busy s).
  - by apply lookup_app_l.
  - rewrite !list_lookup_alter_ne by lia. by apply lookup_app_l.
Qed.

(** The record an arrival adds. *)
Lemma process_arrival_lookup_new (s : Sim) :
  exists c,
    customers (process_arrival src s) !! length (customers s) = Some c /\
    id c = len (customers s) /\
    arrival_time c = next_arrival s /\
    service_time c = service_draw src (sv_calls s) /\
    (if server_busy s
     then service_start c = 0%float /\ departure_time c = 0%float
     else service_start c = clock s /\
          departure_time c = (clock s + service_time c)%float).
Proof.
  rewrite process_arrival_eq, handle_arrival_customers.
  cbn [customers server_busy clock set_customers generate_service_time snd].
  destruct (server_busy s); eexists.
  - split; [by rewrite list_lookup_middle|]. repeat split.
  - split; [rewrite !list_lookup_alter_eq, list_lookup_middle by done;
            reflexivity|].
    repeat split.
Qed.

(** A departure touches at most the record at the head of the queue, and
    of that record only the start of service and the departure time. *)
Lemma handle_departure_lookup (r0 r : nat) (s : Sim) (c : Customer) :
  customers s !! r = Some c ->
  exists c',
    customers (handle_departure r0 s) !! r = Some c' /\
    id c' = id c /\ arrival_time c' = arrival_time c /\
    service_time c' = service_time c /\
    (head (queue s) <> Some r -> c' = c).
Proof.
  intros Hc. rewrite handle_departure_customers.
  destruct (queue s) as [|q rest]; [by exists c|].
  destruct (decide (q = r)) as [->|Hne].
  - rewrite !list_lookup_alter_eq, Hc. eexists. split; [reflexivity|].
    repeat split. cbn. congruence.
  - rewrite !list_lookup_alter_ne by done. by exists c.
Qed.

(** *** Identifiers *)

Lemma ids_are_positions_fields (s s' : Sim) :
  customers s' = customers s -> ids_are_positions s -> ids_are_positions s'.
Proof. unfold ids_are_positions. intros ->. done. Qed.

Lemma ids_are_positions_arrival (s : Sim) :
  ids_are_positions s -> ids_are_positions (process_arrival src s).
Proof.
  intros Hs r c Hc.
  destruct (decide (r < length (customers s))%nat) as [Hlt|Hge].
  - rewrite process_arrival_lookup_old in Hc by done. by apply Hs.
  - assert (r < length (customers (process_arrival src s)))%nat as Hr
      by (apply lookup_lt_is_Some; by exists c).
    rewrite process_arrival_length in Hr.
    assert (r = length (customers s)) as -> by lia.
    destruct (process_arrival_lookup_new s) as (c' & Hc' & Hid & _).
    rewrite Hc in Hc'. by injection Hc' as ->.
Qed.

Lemma ids_are_positions_departure (r0 : nat) (s : Sim) :
  ids_are_positions s -> ids_are_positions (handle_departure r0 s).
Proof.
  intros Hs r c' Hc'.
  assert (r < length (customers s))%nat as Hr.
  { rewrite <- (handle_departure_length r0). apply lookup_lt_is_Some.
    by exists c'. }
  apply lookup_lt_is_Some in Hr as [c Hc].
  destruct (handle_departure_lookup r0 r s c Hc) as (c'' & Hc'' & Hid & _).
  rewrite Hc' in Hc''. injection Hc'' as <-. rewrite Hid. by apply Hs.
Qed.

Lemma ids_are_positions_run (n : Z) (fuel : nat) :
  ids_are_positions (state_of (main_loop src fuel (start src n))).
Proof.
  apply main_loop_invariant.
  - intros s Hs. by eapply ids_are_positions_fields; [|exact Hs].
  - intros s s' Hs Hpass.
    assert (ids_are_positions (set_clock (next_event_time s) s)) as Hs0
      by (by eapply ids_are_positions_fields; [|exact Hs]).
    apply loop_body_continue in Hpass as [[_ ->]|[_ (r & _ & ->)]];
      (eapply ids_are_positions_fields;
       [apply customers_update_next_event_time|]).
    + by apply ids_are_positions_arrival.
    + by apply ids_are_positions_departure.
  - intros r c Hc. done.
Qed.

(** *** The order of the queue *)

Lemma queue_update_next_event_time (s : Sim) :
  queue (update_next_event_time s) = queue s.
Proof. reflexivity. Qed.

Lemma queue_in_order_fields (s s' : Sim) :
  queue s' = queue s -> queue_in_order s -> queue_in_order s'.
Proof. unfold queue_in_order. intros ->. done. Qed.

Lemma queue_in_order_arrival (s : Sim) :
  refs_valid s -> queue_in_order s -> queue_in_order (process_arrival src s).
Proof.
  intros Hrefs Hs. unfold queue_in_order.
  rewrite process_arrival_eq, handle_arrival_queue.
  cbn [queue server_busy set_customers generate_service_time snd customers].
  destruct (server_busy s); [|exact Hs].
  intros i j a b Hij Ha Hb.
  apply lookup_app_Some in Ha as [Ha|[Hge Ha]].
  - apply lookup_app_Some in Hb as [Hb|[_ Hb]]; [by eapply Hs|].
    apply list_lookup_singleton_Some in Hb as [_ <-].
    unfold refs_valid in Hrefs. rewrite Forall_lookup in Hrefs.
    by apply (Hrefs i a).
  - apply list_lookup_singleton_Some in Ha as [Hi _].
    apply lookup_app_Some in Hb as [Hb|[_ Hb]].
    + apply lookup_lt_Some in Hb. lia.
    + apply list_lookup_singleton_Some in Hb as [Hj _]. lia.
Qed.

Lemma queue_in_order_departure (r0 : nat) (s : Sim) :
  queue_in_order s -> queue_in_order (handle_departure r0 s).
Proof.
  intros Hs. unfold queue_in_order. rewrite handle_departure_queue.
  intros i j a b Hij Ha Hb. rewrite lookup_tail in Ha, Hb.
  apply (Hs (S i) (S j) a b); [lia|done|done].
Qed.

Lemma queue_in_order_run (n : Z) (fuel : nat) :
  queue_in_order (state_of (main_loop src fuel (start src n))).
Proof.
  enough (station_inv (state_of (main_loop src fuel (start src n))) /\
          queue_in_order (state_of (main_loop src fuel (start src n))))
    as [_ H] by exact H.
  apply (main_loop_invariant src
           (fun s => station_inv s /\ queue_in_order s)).
  - intros s [Hi Hs]. split; [by eapply station_inv_fields; [..|exact Hi]|].
    exact Hs.
  - intros s s' [Hi Hs] Hpass. split; [by eapply station_inv_pass|].
    assert (refs_valid (set_clock (next_event_time s) s)) as Hrefs
      by (destruct Hi as (_ & Hrefs & _); exact Hrefs).
    assert (queue_in_order (set_clock (next_event_time s) s)) as Hs0
      by exact Hs.
    apply loop_body_continue in Hpass as [[_ ->]|[_ (r & _ & ->)]];
      (eapply queue_in_order_fields; [apply queue_update_next_event_time|]).
    + exact (queue_in_order_arrival _ Hrefs Hs0).
    + exact (queue_in_order_departure r _ Hs0).
  - split; [apply station_inv_init|]. intros i j a b _ Ha. done.
Qed.

(** *** The event slots *)

Lemma slots_consistent_update (s : Sim) :
  (server_busy s = false -> next_departure s = Py.inf) ->
  slots_consistent (update_next_event_time s).
Proof. intros H. split; [reflexivity|exact H]. Qed.

Lemma slots_consistent_clock (s : Sim) (t : float) :
  slots_consistent s -> slots_consistent (set_clock t s).
Proof. intros H. exact H. Qed.

Lemma process_arrival_server_busy (s : Sim) :
  server_busy (process_arrival src s) = true.
Proof. rewrite process_arrival_eq. apply handle_arrival_server_busy. Qed.

Lemma slots_consistent_run (n : Z) (fuel : nat) :
  slots_consistent (state_of (main_loop src fuel (start src n))).
Proof.
  enough (station_inv (state_of (main_loop src fuel (start src n))) /\
          slots_consistent (state_of (main_loop src fuel (start src n))))
    as [_ H] by exact H.
  apply (main_loop_invariant src
           (fun s => station_inv s /\ slots_consistent s)).
  - intros s [Hi Hs]. split; [by eapply station_inv_fields; [..|exact Hi]|].
    by apply slots_consistent_clock.
  - intros s s' [Hi Hs] Hpass. split; [by eapply station_inv_pass|].
    destruct Hi as (Hok & _ & _). destruct Hs as [_ Hidle].
    apply loop_body_continue in Hpass as [[_ ->]|[_ (r & _ & ->)]];
      apply slots_consistent_update.
    + rewrite process_arrival_server_busy. done.
    + rewrite handle_departure_server_busy, handle_departure_next_departure.
      unfold station_ok in Hok.
      change (queue (set_clock (next_event_time s) s)) with (queue s).
      change (server_busy (set_clock (next_event_time s) s))
        with (server_busy s).
      destruct (queue s); [done|]. congruence.
  - split; [apply station_inv_init|]. split; reflexivity.
Qed.

(** *** The length of the queue *)

Lemma process_arrival_queue (s : Sim) :
  queue (process_arrival src s)
  = if server_busy s then queue s ++ [length (customers s)] else queue s.
Proof. rewrite process_arrival_eq, handle_arrival_queue. reflexivity. Qed.

Lemma process_arrival_max_queue_length (s : Sim) :
  max_queue_length (metrics (process_arrival src s))
  = Py.max (max_queue_length (metrics s))
           (len (queue (process_arrival src s))).
Proof.
  rewrite process_arrival_eq, handle_arrival_max_queue_length. reflexivity.
Qed.

Lemma queue_bounded_fields (s s' : Sim) :
  queue s' = queue s -> customers s' = customers s ->
  metrics s' = metrics s -> queue_bounded s -> queue_bounded s'.
Proof. unfold queue_bounded. intros -> -> ->. done. Qed.

Lemma queue_bounded_arrival (s : Sim) :
  in_service s -> queue_bounded s -> queue_bounded (process_arrival src s).
Proof.
  intros Hserv (H1 & H2 & H3). unfold queue_bounded.
  rewrite process_arrival_max_queue_length, process_arrival_queue.
  unfold len in *. rewrite process_arrival_length.
  assert (Z.of_nat
            (length (if server_busy s
                     then queue s ++ [length (customers s)] else queue s))
          <= Z.of_nat (length (customers s))) as Hq.
  { destruct (server_busy s) eqn:B; [|lia].
    rewrite length_app. cbn.
    destruct (Hserv B) as (r & c & Hr & _). apply lookup_lt_Some in Hr. lia. }
  split; [apply max_bounds|]. split; [apply max_least|]; lia.
Qed.

Lemma queue_bounded_departure (r : nat) (s : Sim) :
  queue_bounded s -> queue_bounded (handle_departure r s).
Proof.
  intros (H1 & H2 & H3). unfold queue_bounded, len in *.
  rewrite handle_departure_max_queue_length, handle_departure_queue,
    handle_departure_length.
  assert (length (tail (queue s)) <= length (queue s))%nat
    by (destruct (queue s); cbn; lia).
  lia.
Qed.

Lemma metrics_update_next_event_time (s : Sim) :
  metrics (update_next_event_time s) = metrics s.
Proof. reflexivity. Qed.

Lemma queue_bounded_run (n : Z) (fuel : nat) :
  queue_bounded (state_of (main_loop src fuel (start src n))).
Proof.
  enough (station_inv (state_of (main_loop src fuel (start src n))) /\
          queue_bounded (state_of (main_loop src fuel (start src n))))
    as [_ H] by exact H.
  apply (main_loop_invariant src
           (fun s => station_inv s /\ queue_bounded s)).
  - intros s [Hi Hs]. split; [by eapply station_inv_fields; [..|exact Hi]|].
    exact Hs.
  - intros s s' [Hi Hs] Hpass. split; [by eapply station_inv_pass|].
    assert (in_service (set_clock (next_event_time s) s)) as Hserv
      by (destruct Hi as (_ & _ & Hserv); exact Hserv).
    assert (queue_bounded (set_clock (next_event_time s) s)) as Hs0
      by exact Hs.
    apply loop_body_continue in Hpass as [[_ ->]|[_ (r & _ & ->)]];
      (eapply queue_bounded_fields;
       [apply queue_update_next_event_time
       |apply customers_update_next_event_time
       |apply metrics_update_next_event_time|]).
    + by apply queue_bounded_arrival.
    + by apply queue_bounded_departure.
  - split; [apply station_inv_init|]. repeat split; cbn; unfold len; cbn; lia.
Qed.

(** *** The draws *)

Lemma ia_calls_update_next_event_time (s : Sim) :
  ia_calls (update_next_event_time s) = ia_calls s.
Proof. reflexivity. Qed.

Lemma sv_calls_update_next_event_time (s : Sim) :
  sv_calls (update_next_event_time s) = sv_calls s.
Proof. reflexivity. Qed.

Lemma draws_accounted_fields (s s' : Sim) :
  customers s' = customers s -> ia_calls s' = ia_calls s ->
  sv_calls s' = sv_calls s -> draws_accounted s -> draws_accounted s'.
Proof. unfold draws_accounted. intros -> -> ->. done. Qed.

Lemma draws_accounted_arrival (s : Sim) :
  draws_accounted s -> draws_accounted (process_arrival src s).
Proof.
  intros [Hsv Hia]. unfold draws_accounted.
  rewrite process_arrival_length, process_arrival_eq.
  destruct (handle_arrival_draws (length (customers s))
              (set_customers
                 (customers s ++ [new_Customer (len (customers s))
                                    (next_arrival s)
                                    (service_draw src (sv_calls s))])
                 (snd (generate_service_time src s))))
    as (k & Hk & -> & ->).
  cbn. lia.
Qed.

Lemma draws_accounted_departure (r : nat) (s : Sim) :
  draws_accounted s -> draws_accounted (handle_departure r s).
Proof.
  intros [Hsv Hia]. unfold draws_accounted.
  destruct (handle_departure_draws r s) as [-> ->].
  rewrite handle_departure_length. done.
Qed.

Lemma draws_accounted_run (n : Z) (fuel : nat) :
  draws_accounted (state_of (main_loop src fuel (start src n))).
Proof.
  apply main_loop_invariant.
  - intros s Hs. exact Hs.
  - intros s s' Hs Hpass.
    assert (draws_accounted (set_clock (next_event_time s) s)) as Hs0
      by exact Hs.
    apply loop_body_continue in Hpass as [[_ ->]|[_ (r & _ & ->)]];
      (eapply draws_accounted_fields;
       [apply customers_update_next_event_time
       |apply ia_calls_update_next_event_time
       |apply sv_calls_update_next_event_time|]).
    + by apply draws_accounted_arrival.
    + by apply draws_accounted_departure.
  - split; cbn; lia.
Qed.

End MoreInvariants.

(** ** More facts about binary64 *)

Section MoreFloatFacts.

Local Open Scope float_scope.

Lemma SFcompare_swap (x y : spec_float) :
  SFcompare y x = option_map CompOpp (SFcompare x y).
Proof.
  destruct x as [[]|[]| |[] mx ex], y as [[]|[]| |[] my ey];
    try reflexivity; unfold SFcompare;
    rewrite (Z.compare_antisym ex ey);
    destruct (ex ?= ey)%Z; cbn [CompOpp option_map]; try reflexivity;
    rewrite !Pos.compare_cont_antisym; cbn [CompOpp]; reflexivity.
Qed.

(** [a <= b] excludes [b < a]. *)
Lemma leb_not_gt (a b : float) : (a <=? b) = true -> (b <? a) = false.
Proof.
  rewrite FloatAxioms.leb_spec, FloatAxioms.ltb_spec.
  unfold SFleb, SFltb. rewrite (SFcompare_swap (Prim2SF a) (Prim2SF b)).
  destruct (SFcompare (Prim2SF a) (Prim2SF b)) as [[]|]; cbn; congruence.
Qed.

Lemma min_of_leb (a b : float) : (a <=? b) = true -> Py.min a b = a.
Proof. intros H. unfold Py.min. by rewrite (leb_not_gt a b H). Qed.

(** Nothing is above [float('inf')]. *)
Lemma min_inf_r (a : float) : Py.min a Py.inf = a.
Proof.
  unfold Py.min, Py.inf.
  assert ((infinity <? a) = false) as ->; [|done].
  rewrite FloatAxioms.ltb_spec, Prim2SF_inf.
  destruct (Prim2SF a) as [[]|[]| |[] m e]; reflexivity.
Qed.

Lemma Prim2SF_hundred :
  Prim2SF 100 = S754_finite false 7036874417766400 (-46).
Proof. vm_compute. reflexivity. Qed.

(** A quotient by a clock that is not below [float('inf')], as a
    percentage, is a zero or not a number. *)
Lemma percentage_of_unbounded (b c : float) :
  (c =? Py.inf) = true \/ (c <? Py.inf) = false ->
  (0 <? b / c * 100) = false.
Proof.
  unfold Py.inf.
  rewrite FloatAxioms.eqb_spec, !FloatAxioms.ltb_spec, FloatAxioms.mul_spec,
    FloatAxioms.div_spec, Prim2SF_inf, Prim2SF_zero, Prim2SF_hundred.
  destruct (Prim2SF c) as [[]|[]| |[] mc ec];
    try (intros [H|H]; lazy in H; discriminate H); intros _;
    destruct (Prim2SF b) as [[]|[]| |[] mb eb]; reflexivity.
Qed.

End MoreFloatFacts.

(** ** More about single passes *)

Section Passes.

Local Open Scope float_scope.

(** What the final computation writes when it succeeds. *)
Lemma finalize_inr (s s' : Sim) :
  finalize s = inr s' ->
  clock s' = clock s /\
  server_utilization (metrics s')
  = busy_time (metrics s) / clock s * 100.
Proof.
  unfold finalize.
  destruct (Py.truediv (busy_time (metrics s)) (clock s)) as [e|q] eqn:Hq;
    [done|].
  assert (q = busy_time (metrics s) / clock s) as ->.
  { unfold Py.truediv in Hq. destruct (clock s =? 0); congruence. }
  cbn. repeat case_match; try done. by intros [= <-].
Qed.

(** The loop is only left normally with a clock that is not below
    [float('inf')]. *)
Lemma main_loop_exit_unbounded (src : Source) (fuel : nat) (s s' : Sim) :
  main_loop src fuel s = Exited s' ->
  (clock s' =? Py.inf) = true \/ (clock s' <? Py.inf) = false.
Proof.
  revert s. induction fuel as [|fuel IH]; intros s; cbn; [done|].
  destruct (clock s <? Py.inf) eqn:C.
  - destruct (loop_body src s) as [s1|s1|e s1] eqn:E; [by apply IH| |done].
    intros [= <-]. revert E. unfold loop_body. cbv zeta.
    destruct (clock (set_clock (next_event_time s) s) =? Py.inf) eqn:I.
    + intros [= <-]. by left.
    + repeat case_match; done.
  - intros [= <-]. by right.
Qed.

(** A pass that raises found no arrival due and no customer departing. *)
Lemma loop_body_raise_inv (src : Source) (s s' : Sim) (e : Py.Exn) :
  loop_body src s = Raise e s' ->
  arrival_due (set_clock (next_event_time s) s) = false /\
  Py.next_index (departs_at (next_event_time s)) (customers s) = None.
Proof.
  unfold loop_body. cbv zeta.
  destruct (clock (set_clock (next_event_time s) s) =? Py.inf); [done|].
  destruct (arrival_due (set_clock (next_event_time s) s)); [done|].
  change (clock (set_clock (next_event_time s) s)) with (next_event_time s).
  change (customers (set_clock (next_event_time s) s)) with (customers s).
  destruct (Py.next_index _ _); done.
Qed.

Lemma matches_none (t : float) (l : list Customer) :
  Py.next_index (departs_at t) l = None -> matches t l = 0%nat.
Proof.
  intros E. apply next_index_None in E. unfold matches.
  induction E as [|c l' Hc _ IH]; [done|].
  rewrite filter_cons_False; [exact IH|]. congruence.
Qed.

Lemma process_arrival_sums (src : Source) (s : Sim) :
  total_waiting_time (metrics (process_arrival src s))
  = total_waiting_time (metrics s) /\
  total_system_time (metrics (process_arrival src s))
  = total_system_time (metrics s) /\
  busy_time (metrics (process_arrival src s)) = busy_time (metrics s).
Proof.
  rewrite process_arrival_eq. unfold handle_arrival.
  cbn [server_busy set_customers generate_service_time snd].
  destruct (server_busy s); cbn; repeat case_match; cbn; done.
Qed.

Lemma server_busy_update_next_event_time (s : Sim) :
  server_busy (update_next_event_time s) = server_busy s.
Proof. reflexivity. Qed.

Lemma next_departure_update_next_event_time (s : Sim) :
  next_departure (update_next_event_time s) = next_departure s.
Proof. reflexivity. Qed.

End Passes.

(** ** The order of the binary64 numbers that are not negative *)

Section Order.

Lemma digits2_pos_bounds (p : positive) :
  2 ^ (Zpos (digits2_pos p) - 1) <= Zpos p < 2 ^ Zpos (digits2_pos p).
Proof.
  induction p as [p IH|p IH|]; cbn [digits2_pos].
  - rewrite Pos2Z.inj_succ.
    replace (Z.succ (Zpos (digits2_pos p)) - 1)
      with (Z.succ (Zpos (digits2_pos p) - 1)) by lia.
    rewrite !Z.pow_succ_r by lia. lia.
  - rewrite Pos2Z.inj_succ.
    replace (Z.succ (Zpos (digits2_pos p)) - 1)
      with (Z.succ (Zpos (digits2_pos p) - 1)) by lia.
    rewrite !Z.pow_succ_r by lia. lia.
  - cbn. lia.
Qed.

Lemma shr_m_shr_1 (mrs : shr_record) :
  0 <= shr_m mrs -> shr_m (shr_1 mrs) = shr_m mrs / 2.
Proof.
  destruct mrs as [[|[p|p|]|p] r s]; cbn [shr_m shr_1]; intros H; try lia.
  - reflexivity.
  - apply Z.div_unique with (r := 1); lia.
  - apply Z.div_unique with (r := 0); lia.
  - reflexivity.
Qed.

Lemma shr_m_iter (p : positive) (mrs : shr_record) :
  0 <= shr_m mrs ->
  shr_m (SpecFloat.iter_pos shr_1 p mrs) = shr_m mrs / 2 ^ Zpos p.
Proof.
  revert mrs. induction p as [p IH|p IH|]; intros mrs H; cbn [SpecFloat.iter_pos].
  - assert (0 <= shr_m (shr_1 mrs)) as H1
      by (rewrite shr_m_shr_1 by done; apply Z.div_pos; lia).
    assert (0 <= shr_m (SpecFloat.iter_pos shr_1 p (shr_1 mrs))) as H2
      by (rewrite IH by done; apply Z.div_pos; lia).
    rewrite IH, IH, shr_m_shr_1 by done.
    rewrite !Z.div_div by lia. f_equal.
    replace (Zpos p~1) with (1 + Zpos p + Zpos p) by lia.
    rewrite !Z.pow_add_r by lia. change (2 ^ 1) with 2. lia.
  - assert (0 <= shr_m (SpecFloat.iter_pos shr_1 p mrs)) as H2
      by (rewrite IH by done; apply Z.div_pos; lia).
    rewrite IH, IH by done.
    rewrite !Z.div_div by lia. f_equal.
    replace (Zpos p~0) with (Zpos p + Zpos p) by lia.
    rewrite !Z.pow_add_r by lia. lia.
  - by apply shr_m_shr_1.
Qed.


Lemma valid_canon (s : bool) (m : positive) (e : Z) :
  valid_binary (S754_finite s m e) = true -> canon m e.
Proof.
  cbn. unfold bounded, canonical_mantissa.
  intros [H1 H2]%andb_true_iff. split; [by apply Z.eqb_eq|].
  apply Z.leb_le in H2. exact H2.
Qed.

Lemma canon_facts (m : positive) (e : Z) :
  canon m e ->
  -1074 <= e <= 971 /\ Zpos (digits2_pos m) <= 53 /\
  (-1074 < e -> Zpos (digits2_pos m) = 53).
Proof.
  unfold canon, fexp, emin. change prec with 53. change emax with 1024.
  lia.
Qed.

Lemma scaled_pos (m e : Z) : 0 < m -> -1074 <= e -> 0 < scaled m e.
Proof.
  intros Hm He. unfold scaled. apply Z.mul_pos_pos; [done|].
  apply Z.pow_pos_nonneg; lia.
Qed.

Lemma scaled_le (m m' e : Z) : m <= m' -> scaled m e <= scaled m' e.
Proof.
  intros H. unfold scaled. apply Z.mul_le_mono_nonneg_r; [|done].
  apply Z.pow_nonneg. lia.
Qed.

(** Moving the exponent of a scaled value. *)
Lemma scaled_shift (m e k : Z) :
  0 <= k -> -1074 <= e -> scaled m (e + k) = scaled (m * 2 ^ k) e.
Proof.
  intros Hk He. unfold scaled.
  replace (e + k + 1074) with (k + (e + 1074)) by lia.
  rewrite Z.pow_add_r by lia. lia.
Qed.

(** A canonical number is below [2 ^ 53] units of its exponent, and if
    its exponent is not the least one, it is at least [2 ^ 52] units. *)
Lemma canon_below (m : positive) (e : Z) :
  canon m e -> scaled (Zpos m) e < scaled (2 ^ 53) e.
Proof.
  intros H. destruct (canon_facts m e H) as (He & Hd & _).
  pose proof (digits2_pos_bounds m) as [_ Hlt].
  assert (2 ^ Zpos (digits2_pos m) <= 2 ^ 53)
    by (apply Z.pow_le_mono_r; lia).
  unfold scaled. apply Z.mul_lt_mono_pos_r; [|lia].
  apply Z.pow_pos_nonneg; lia.
Qed.

Lemma canon_above (m : positive) (e : Z) :
  canon m e -> -1074 < e -> scaled (2 ^ 52) e <= scaled (Zpos m) e.
Proof.
  intros H Hlow. destruct (canon_facts m e H) as (He & _ & Hd).
  pose proof (digits2_pos_bounds m) as [Hge _].
  rewrite (Hd Hlow) in Hge. change (53 - 1) with 52 in Hge.
  by apply scaled_le.
Qed.

(** Across exponents: [2 ^ 53] units of an exponent are at most
    [2 ^ 52] units of any greater one. *)
Lemma scaled_next (e e' : Z) :
  -1074 <= e -> e < e' -> scaled (2 ^ 53) e <= scaled (2 ^ 52) e'.
Proof.
  intros He Hlt. unfold scaled. rewrite <- !Z.pow_add_r by lia.
  apply Z.pow_le_mono_r; lia.
Qed.

(** What [shr_fexp] computes: a shift to the right by the number of bits
    in excess. *)
Lemma shr_fexp_spec (m e : Z) (l : location) (mrs : shr_record) (e' : Z) :
  0 <= m ->
  shr_fexp prec emax m e l = (mrs, e') ->
  let k := Z.max 0 (fexp prec emax (Zdigits2 m + e) - e) in
  e' = e + k /\ shr_m mrs = m / 2 ^ k.
Proof.
  intros Hm. unfold shr_fexp, shr.
  assert (shr_m (shr_record_of_loc m l) = m) as Hrec
    by (destruct l as [|[]]; reflexivity).
  destruct (fexp prec emax (Zdigits2 m + e) - e) as [|p|p] eqn:K;
    intros [= <- <-]; cbn zeta.
  - rewrite Z.div_1_r. split; [lia|done].
  - rewrite shr_m_iter by lia. rewrite Hrec.
    replace (Z.max 0 (Zpos p)) with (Zpos p) by lia. done.
  - rewrite Z.div_1_r. split; [lia|done].
Qed.

(** The shift never takes a positive number below a canonical number
    that it was not below. *)
Lemma shr_fexp_ge (ma : positive) (ea m e : Z) (l : location)
      (mrs : shr_record) (e' : Z) :
  canon ma ea -> 0 < m -> -1074 <= e ->
  scaled (Zpos ma) ea <= scaled m e ->
  shr_fexp prec emax m e l = (mrs, e') ->
  0 < shr_m mrs /\ e <= e' /\ scaled (Zpos ma) ea <= scaled (shr_m mrs) e'.
Proof.
  intros Ha Hm He Hle Hshr.
  apply shr_fexp_spec in Hshr as [-> ->]; [|lia].
  destruct (canon_facts ma ea Ha) as (Hea & Hda & _).
  destruct m as [|mp|mp]; [lia| |lia]. cbn [Zdigits2].
  pose proof (digits2_pos_bounds mp) as [Hlow _].
  set (d := Zpos (digits2_pos mp)) in *.
  set (k := Z.max 0 (fexp prec emax (d + e) - e)).
  assert (0 <= k) as Hk by lia.
  assert (0 < 2 ^ k) as H2k by (apply Z.pow_pos_nonneg; lia).
  destruct (Z.eq_dec k 0) as [Hk0|Hk0].
  { rewrite Hk0, Z.div_1_r, Z.add_0_r. lia. }
  destruct (Z_le_gt_dec (e + k) ea) as [Hcase|Hcase].
  - (* the new exponent is at most that of the canonical number *)
    set (t := ea - (e + k)).
    assert (0 <= t) as Ht by lia.
    assert (scaled (Zpos ma) ea = scaled (Zpos ma * 2 ^ t * 2 ^ k) e) as Hsa.
    { replace ea with (e + (k + t)) by lia.
      rewrite scaled_shift by lia. f_equal.
      rewrite Z.pow_add_r by lia. lia. }
    assert (Zpos ma * 2 ^ t * 2 ^ k <= Zpos mp) as Hm'.
    { rewrite Hsa in Hle. unfold scaled in Hle.
      apply Z.mul_le_mono_pos_r in Hle; [done|].
      apply Z.pow_pos_nonneg; lia. }
    assert (Zpos ma * 2 ^ t <= Zpos mp / 2 ^ k) as Hq
      by (apply Z.div_le_lower_bound; lia).
    assert (0 < Zpos ma * 2 ^ t) as Hpos.
    { apply Z.mul_pos_pos; [lia|]. apply Z.pow_pos_nonneg; lia. }
    split; [lia|]. split; [lia|].
    replace ea with (e + k + t) by lia.
    rewrite (scaled_shift _ (e + k) t) by lia.
    by apply scaled_le.
  - (* the new exponent is greater: the result has 53 bits *)
    assert (k = d - 53) as Hkd.
    { unfold k, fexp, emin in *. change prec with 53 in *.
      change emax with 1024 in *. lia. }
    assert (2 ^ 52 <= Zpos mp / 2 ^ k) as Hq.
    { apply Z.div_le_lower_bound; [done|].
      rewrite <- Z.pow_add_r by lia.
      replace (k + 52) with (d - 1) by lia. done. }
    split; [lia|]. split; [lia|].
    transitivity (scaled (2 ^ 53) ea).
    + apply Z.lt_le_incl. by apply canon_below.
    + transitivity (scaled (2 ^ 52) (e + k)).
      * apply scaled_next; lia.
      * by apply scaled_le.
Qed.

Lemma round_nearest_even_ge (m : Z) (l : location) :
  m <= round_nearest_even m l.
Proof.
  destruct l as [|[]]; cbn; try lia. destruct (Z.even m); lia.
Qed.

(** Rounding a positive number that is not below a canonical number gives
    a result that is not below it either. *)
Lemma binary_round_aux_ge (ma : positive) (ea m e : Z) :
  canon ma ea -> 0 < m -> -1074 <= e ->
  scaled (Zpos ma) ea <= scaled m e ->
  match binary_round_aux prec emax false m e loc_Exact with
  | S754_finite false m' e' => scaled (Zpos ma) ea <= scaled (Zpos m') e'
  | S754_infinity false => True
  | _ => False
  end.
Proof.
  intros Ha Hm He Hle. unfold binary_round_aux.
  destruct (shr_fexp prec emax m e loc_Exact) as [mrs1 e1] eqn:E1.
  destruct (shr_fexp_ge ma ea m e _ _ _ Ha Hm He Hle E1) as (Hq & He1 & Hle1).
  pose proof (round_nearest_even_ge (shr_m mrs1) (loc_of_shr_record mrs1))
    as Hround.
  set (m1 := round_nearest_even _ _) in *.
  destruct (shr_fexp prec emax m1 e1 loc_Exact) as [mrs2 e2] eqn:E2.
  assert (scaled (Zpos ma) ea <= scaled m1 e1) as Hle2
    by (etransitivity; [exact Hle1|by apply scaled_le]).
  destruct (shr_fexp_ge ma ea m1 e1 _ _ _ Ha ltac:(lia) ltac:(lia) Hle2 E2)
    as (Hq2 & He2 & Hle3).
  destruct (shr_m mrs2) as [|m2|m2]; [lia| |lia].
  destruct (e2 <=? emax - prec); done.
Qed.


Lemma Pos_iter_xO (m d : positive) :
  Zpos (Pos.iter xO m d) = Zpos m * 2 ^ Zpos d.
Proof.
  induction d as [|d IH] using Pos.peano_ind.
  - cbn. lia.
  - rewrite Pos.iter_succ, Pos2Z.inj_xO, IH, Pos2Z.inj_succ.
    rewrite Z.pow_succ_r by lia. lia.
Qed.

(** [shl_align] changes the exponent and not the value. *)
Lemma shl_align_scaled (mx : positive) (ex ex' : Z) :
  -1074 <= ex -> -1074 <= ex' ->
  scaled (Zpos (fst (shl_align mx ex ex'))) (snd (shl_align mx ex ex'))
  = scaled (Zpos mx) ex /\
  snd (shl_align mx ex ex') = Z.min ex ex'.
Proof.
  intros He He'. unfold shl_align.
  destruct (ex' - ex) as [|d|d] eqn:D; cbn [fst snd].
  - split; [done|lia].
  - split; [done|lia].
  - split; [|lia]. rewrite Pos_iter_xO.
    replace ex with (ex' + Zpos d) by lia.
    by rewrite scaled_shift by lia.
Qed.

Lemma fexp_ge (x : Z) : -1074 <= fexp prec emax x.
Proof. unfold fexp, emin. change prec with 53. change emax with 1024. lia. Qed.

Lemma binary_round_ge (ma : positive) (ea : Z) (m : positive) (e : Z) :
  canon ma ea -> -1074 <= e ->
  scaled (Zpos ma) ea <= scaled (Zpos m) e ->
  match binary_round prec emax false m e with
  | S754_finite false m' e' => scaled (Zpos ma) ea <= scaled (Zpos m') e'
  | S754_infinity false => True
  | _ => False
  end.
Proof.
  intros Ha He Hle. unfold binary_round.
  pose proof (shl_align_scaled m e
                (fexp prec emax (Zpos (digits2_pos m) + e)) He (fexp_ge _))
    as [Hval Hexp].
  destruct (shl_align m e _) as [mz ez]. cbn [fst snd] in *.
  apply binary_round_aux_ge; [done|lia| |lia].
  pose proof (fexp_ge (Zpos (digits2_pos m) + e)). lia.
Qed.

(** The sum of two positive numbers is not below the first. *)
Lemma SFadd_ge (ma : positive) (ea : Z) (mb : positive) (eb : Z) :
  canon ma ea -> canon mb eb ->
  match SFadd prec emax (S754_finite false ma ea) (S754_finite false mb eb)
  with
  | S754_finite false m' e' => scaled (Zpos ma) ea <= scaled (Zpos m') e'
  | S754_infinity false => True
  | _ => False
  end.
Proof.
  intros Ha Hb. unfold SFadd, cond_Zopp.
  destruct (canon_facts ma ea Ha) as (Hea & _).
  destruct (canon_facts mb eb Hb) as (Heb & _).
  pose proof (shl_align_scaled ma ea (Z.min ea eb)) as [Hva Hxa]; [lia..|].
  pose proof (shl_align_scaled mb eb (Z.min ea eb)) as [Hvb Hxb]; [lia..|].
  destruct (shl_align ma ea _) as [ma' ea'].
  destruct (shl_align mb eb _) as [mb' eb']. cbn [fst snd] in *.
  cbn [Z.add binary_normalize].
  apply binary_round_ge; [done|lia|].
  assert (ea' = Z.min ea eb) as <- by lia.
  rewrite <- Hva, Pos2Z.inj_add. apply scaled_le. lia.
Qed.

Lemma canon_lt_top (m : positive) (e : Z) :
  canon m e -> 0 < scaled (Zpos m) e < rank_inf.
Proof.
  intros H. destruct (canon_facts m e H) as (He & _).
  split; [apply scaled_pos; lia|].
  eapply Z.lt_le_trans; [by apply canon_below|].
  unfold scaled, rank_inf. rewrite <- Z.pow_add_r by lia.
  apply Z.pow_le_mono_r; lia.
Qed.

Lemma scaled_compare (m1 : positive) (e1 : Z) (m2 : positive) (e2 : Z) :
  canon m1 e1 -> canon m2 e2 ->
  match e1 ?= e2 with
  | Lt => Lt
  | Gt => Gt
  | Eq => Pos.compare_cont Eq m1 m2
  end = (scaled (Zpos m1) e1 ?= scaled (Zpos m2) e2).
Proof.
  intros H1 H2. symmetry.
  destruct (canon_facts m1 e1 H1) as (He1 & _).
  destruct (canon_facts m2 e2 H2) as (He2 & _).
  destruct (Z.compare_spec e1 e2) as [->|Hlt|Hgt].
  - change (Pos.compare_cont Eq m1 m2) with (Zpos m1 ?= Zpos m2).
    unfold scaled.
    assert (0 < 2 ^ (e2 + 1074)) by (apply Z.pow_pos_nonneg; lia).
    destruct (Z.compare_spec (Zpos m1) (Zpos m2)) as [->|Hm|Hm].
    + apply Z.compare_refl.
    + apply Z.compare_lt_iff. by apply Z.mul_lt_mono_pos_r.
    + apply Z.compare_gt_iff. by apply Z.mul_lt_mono_pos_r.
  - apply Z.compare_lt_iff.
    eapply Z.lt_le_trans; [by apply canon_below|].
    etransitivity; [apply (scaled_next e1 e2); lia|].
    apply canon_above; [done|lia].
  - apply Z.compare_gt_iff.
    eapply Z.lt_le_trans; [by apply canon_below|].
    etransitivity; [apply (scaled_next e2 e1); lia|].
    apply canon_above; [done|lia].
Qed.

Lemma SFcompare_rank (x y : spec_float) :
  valid_binary x = true -> valid_binary y = true ->
  nonneg x -> nonneg y ->
  SFcompare x y = Some (rank x ?= rank y).
Proof.
  intros Vx Vy Nx Ny.
  destruct x as [sx|[]| |[] mx ex]; try done;
    destruct y as [sy|[]| |[] my ey]; try done;
    try apply valid_canon in Vx; try apply valid_canon in Vy;
    try pose proof (canon_lt_top _ _ Vx);
    try pose proof (canon_lt_top _ _ Vy);
    assert (0 < rank_inf) by (by apply Z.pow_pos_nonneg);
    cbn [SFcompare rank]; fold rank_inf; f_equal; symmetry;
    try (apply Z.compare_lt_iff; lia);
    try (apply Z.compare_gt_iff; lia);
    try apply Z.compare_refl.
  symmetry. by apply scaled_compare.
Qed.


Local Open Scope float_scope.

Lemma nonneg_iff (x : float) : (0 <=? x) = true <-> nonneg (Prim2SF x).
Proof.
  rewrite FloatAxioms.leb_spec. change (Prim2SF 0) with (S754_zero false).
  destruct (Prim2SF x) as [[]|[]| |[] m e]; cbn; split; done.
Qed.

Lemma nonneg_rk (x : float) : (0 <=? x) = true -> (0 <= rk x <= rank_inf)%Z.
Proof.
  intros H%nonneg_iff. unfold rk. pose proof (Prim2SF_valid x) as V.
  assert (0 < rank_inf)%Z by (by apply Z.pow_pos_nonneg).
  destruct (Prim2SF x) as [[]|[]| |[] m e]; try (exact (False_ind _ H));
    cbn [rank]; try lia.
  apply valid_canon in V. pose proof (canon_lt_top _ _ V). lia.
Qed.

Lemma compare_rk (x y : float) :
  (0 <=? x) = true -> (0 <=? y) = true ->
  SFcompare (Prim2SF x) (Prim2SF y) = Some (rk x ?= rk y)%Z.
Proof.
  intros Hx%nonneg_iff Hy%nonneg_iff.
  apply SFcompare_rank; try done; apply Prim2SF_valid.
Qed.

Lemma leb_rk (x y : float) :
  (0 <=? x) = true -> (0 <=? y) = true ->
  (x <=? y) = true <-> (rk x <= rk y)%Z.
Proof.
  intros Hx Hy. rewrite FloatAxioms.leb_spec. unfold SFleb.
  rewrite (compare_rk x y Hx Hy).
  destruct (Z.compare_spec (rk x) (rk y)); split; (lia || done).
Qed.

Lemma ltb_rk (x y : float) :
  (0 <=? x) = true -> (0 <=? y) = true ->
  (x <? y) = true <-> (rk x < rk y)%Z.
Proof.
  intros Hx Hy. rewrite FloatAxioms.ltb_spec. unfold SFltb.
  rewrite (compare_rk x y Hx Hy).
  destruct (Z.compare_spec (rk x) (rk y)); split; (lia || done).
Qed.

(** A number that is at least a number that is not negative is not
    negative (and not NaN). *)
Lemma leb_nonneg (x y : float) :
  (0 <=? x) = true -> (x <=? y) = true -> (0 <=? y) = true.
Proof.
  intros Hx%nonneg_iff. rewrite nonneg_iff, FloatAxioms.leb_spec.
  destruct (Prim2SF x) as [[]|[]| |[] m e]; try done;
    destruct (Prim2SF y) as [[]|[]| |[] m' e']; cbn; done.
Qed.

Lemma leb_trans (x y z : float) :
  (0 <=? x) = true -> (x <=? y) = true -> (y <=? z) = true ->
  (x <=? z) = true.
Proof.
  intros Hx Hxy Hyz.
  pose proof (leb_nonneg x y Hx Hxy) as Hy.
  pose proof (leb_nonneg y z Hy Hyz) as Hz.
  apply leb_rk in Hxy, Hyz; [|done..]. apply leb_rk; [done..|]. lia.
Qed.

Lemma leb_refl (x : float) : (0 <=? x) = true -> (x <=? x) = true.
Proof. intros Hx. rewrite leb_rk by done. lia. Qed.

Lemma leb_inf (x : float) : (0 <=? x) = true -> (x <=? infinity) = true.
Proof.
  intros Hx. rewrite leb_rk by done. apply (nonneg_rk x Hx).
Qed.

Lemma min_rk (a b : float) :
  (0 <=? a) = true -> (0 <=? b) = true ->
  (0 <=? Py.min a b) = true /\ rk (Py.min a b) = Z.min (rk a) (rk b).
Proof.
  intros Ha Hb. unfold Py.min.
  destruct (b <? a) eqn:C.
  - apply ltb_rk in C; [|done..]. split; [done|lia].
  - split; [done|]. destruct (Z_lt_le_dec (rk b) (rk a)) as [H|H]; [|lia].
    apply ltb_rk in H; [|done..]. congruence.
Qed.

(** Adding a number that is not negative does not decrease. *)
Lemma add_rk (x y : float) :
  (0 <=? x) = true -> (0 <=? y) = true ->
  (0 <=? x + y) = true /\ (rk x <= rk (x + y))%Z.
Proof.
  intros Hx Hy. pose proof (nonneg_rk x Hx) as Rx.
  rewrite nonneg_iff in *. unfold rk in *. rewrite FloatAxioms.add_spec.
  unfold SF64add.
  pose proof (Prim2SF_valid x) as Vx. pose proof (Prim2SF_valid y) as Vy.
  assert (0 < rank_inf)%Z by (by apply Z.pow_pos_nonneg).
  destruct (Prim2SF x) as [sx|[]| |[] mx ex];
    try (exact (False_ind _ Hx));
    destruct (Prim2SF y) as [sy|[]| |[] my ey];
    try (exact (False_ind _ Hy));
    try (cbn [SFadd rank nonneg] in *; split; [exact I|lia]).
  - destruct sx, sy; cbn [SFadd rank nonneg]; (split; [exact I|lia]).
  - apply valid_canon, canon_lt_top in Vy.
    cbn [SFadd rank nonneg] in *. split; [exact I|lia].
  - apply valid_canon in Vx, Vy.
    pose proof (SFadd_ge mx ex my ey Vx Vy) as Hadd.
    destruct (SFadd prec emax _ _) as [?|[]| |[] m e];
      try (exact (False_ind _ Hadd)).
    + cbn [rank nonneg] in *. split; [exact I|lia].
    + cbn [rank nonneg] in *. split; [exact I|lia].
Qed.


Lemma canon_least : canon 1 (-1074).
Proof. split; [reflexivity|lia]. Qed.

(** The difference of two positive numbers, the first not below the
    second, is not negative. *)
Lemma SFsub_nonneg (my : positive) (ey : Z) (mx : positive) (ex : Z) :
  canon my ey -> canon mx ex ->
  (scaled (Zpos mx) ex <= scaled (Zpos my) ey)%Z ->
  nonneg (SFsub prec emax (S754_finite false my ey)
                          (S754_finite false mx ex)).
Proof.
  intros Hy Hx Hle. unfold SFsub, cond_Zopp.
  destruct (canon_facts my ey Hy) as (Hey & _).
  destruct (canon_facts mx ex Hx) as (Hex & _).
  pose proof (shl_align_scaled my ey (Z.min ey ex)) as [Hvy Hxy]; [lia..|].
  pose proof (shl_align_scaled mx ex (Z.min ey ex)) as [Hvx Hxx]; [lia..|].
  destruct (shl_align my ey _) as [my' ey'].
  destruct (shl_align mx ex _) as [mx' ex']. cbn [fst snd] in *.
  assert (ey' = Z.min ey ex) as Hey' by lia.
  assert (ex' = Z.min ey ex) as Hex' by lia.
  assert (Zpos mx' <= Zpos my')%Z as Hm.
  { rewrite <- Hvy, <- Hvx, Hey', Hex' in Hle. unfold scaled in Hle.
    apply Z.mul_le_mono_pos_r in Hle; [done|].
    apply Z.pow_pos_nonneg; lia. }
  destruct (Zpos my' - Zpos mx')%Z as [|d|d] eqn:D; [done| |lia].
  cbn [binary_normalize].
  pose proof (binary_round_ge 1 (-1074) d (Z.min ey ex) canon_least) as Hr.
  destruct (binary_round prec emax false d (Z.min ey ex)) as [?|[]| |[] m e];
    try done; apply Hr; try lia;
    pose proof (scaled_pos (Zpos d) (Z.min ey ex)); change (scaled 1 (-1074)) with 1%Z; lia.
Qed.

Lemma sub_rk (x y : float) :
  (0 <=? x) = true -> (x <=? y) = true ->
  (y - x <? 0) = false /\
  ((x <? infinity) = true -> (0 <=? y - x) = true).
Proof.
  intros Hx Hxy. pose proof (leb_nonneg x y Hx Hxy) as Hy.
  pose proof (nonneg_rk x Hx) as Rx. pose proof (nonneg_rk y Hy) as Ry.
  apply leb_rk in Hxy; [|done..].
  rewrite (ltb_rk x infinity Hx eq_refl).
  change (rk infinity) with rank_inf.
  rewrite nonneg_iff in *. rewrite FloatAxioms.ltb_spec.
  change (Prim2SF 0) with (S754_zero false).
  unfold rk in *. rewrite FloatAxioms.sub_spec. unfold SF64sub.
  pose proof (Prim2SF_valid x) as Vx. pose proof (Prim2SF_valid y) as Vy.
  assert (0 < rank_inf)%Z by (by apply Z.pow_pos_nonneg).
  destruct (Prim2SF x) as [sx|[]| |[] mx ex];
    try (exact (False_ind _ Hx));
    destruct (Prim2SF y) as [sy|[]| |[] my ey];
    try (exact (False_ind _ Hy)).
  - destruct sx, sy; split; (reflexivity || (intros _; exact I)).
  - destruct sx; split; (reflexivity || (intros _; exact I)).
  - apply valid_canon, canon_lt_top in Vy.
    destruct sx; split; (reflexivity || (intros _; exact I)).
  - cbn [rank] in *. lia.
  - split; [reflexivity|]. cbn [rank]. lia.
  - apply valid_canon, canon_lt_top in Vy. cbn [rank] in *. lia.
  - apply valid_canon, canon_lt_top in Vx. cbn [rank] in *. lia.
  - split; (reflexivity || (intros _; exact I)).
  - apply valid_canon in Vx, Vy. cbn [rank] in *.
    pose proof (SFsub_nonneg my ey mx ex Vy Vx Hxy) as Hsub.
    destruct (SFsub prec emax _ _) as [?|[]| |[] m e];
      try (exact (False_ind _ Hsub));
      split; (reflexivity || (intros _; exact I)).
Qed.

End Order.

(** ** No overflow by a short duration *)

Section Overflow.

Lemma shr_r_shr_1 (mrs : shr_record) :
  0 <= shr_m mrs -> shr_r (shr_1 mrs) = Z.testbit (shr_m mrs) 0.
Proof.
  destruct mrs as [[|[p|p|]|p] r s]; cbn [shr_m shr_r shr_1]; intros H;
    try lia; reflexivity.
Qed.

(** The round bit after a shift is the last bit shifted out. *)
Lemma shr_r_iter (p : positive) (mrs : shr_record) :
  0 <= shr_m mrs ->
  shr_r (SpecFloat.iter_pos shr_1 p mrs)
  = Z.testbit (shr_m mrs) (Zpos p - 1).
Proof.
  revert mrs. induction p as [p IH|p IH|]; intros mrs H;
    cbn [SpecFloat.iter_pos].
  - assert (0 <= shr_m (shr_1 mrs)) as H1
      by (rewrite shr_m_shr_1 by done; apply Z.div_pos; lia).
    assert (0 <= shr_m (SpecFloat.iter_pos shr_1 p (shr_1 mrs))) as H2
      by (rewrite shr_m_iter by done; apply Z.div_pos; lia).
    rewrite IH, shr_m_iter, shr_m_shr_1 by done.
    rewrite Z.div_pow2_bits, Z.div2_bits by lia. f_equal. lia.
  - assert (0 <= shr_m (SpecFloat.iter_pos shr_1 p mrs)) as H2
      by (rewrite shr_m_iter by done; apply Z.div_pos; lia).
    rewrite IH, shr_m_iter by done.
    rewrite Z.div_pow2_bits by lia. f_equal. lia.
  - by apply shr_r_shr_1.
Qed.

(** A set bit bounds the number from below. *)
Lemma testbit_lower (m k : Z) :
  0 <= m -> 0 < k -> Z.testbit m (k - 1) = true ->
  (2 * (m / 2 ^ k) + 1) * 2 ^ (k - 1) <= m.
Proof.
  intros Hm Hk Hbit. apply Z.testbit_true in Hbit; [|lia].
  assert (0 < 2 ^ (k - 1)) as Hp by (apply Z.pow_pos_nonneg; lia).
  assert (2 ^ k = 2 ^ (k - 1) * 2) as Hk2.
  { replace k with (k - 1 + 1) at 1 by lia. by rewrite Z.pow_add_r by lia. }
  pose proof (Z.div_mod m (2 ^ (k - 1)) ltac:(lia)) as Hdm.
  pose proof (Z.mod_pos_bound m (2 ^ (k - 1)) Hp) as Hmod.
  pose proof (Z.div_mod (m / 2 ^ (k - 1)) 2 ltac:(lia)) as Hd2.
  rewrite Hbit in Hd2.
  assert (m / 2 ^ k = m / 2 ^ (k - 1) / 2) as ->
    by (rewrite Hk2, Z.div_div by lia; done).
  nia.
Qed.

(** Rounding goes up by one at most, and only on a set round bit. *)
Lemma round_nearest_even_le (mrs : shr_record) :
  round_nearest_even (shr_m mrs) (loc_of_shr_record mrs) <= shr_m mrs + 1 /\
  (shr_r mrs = false ->
   round_nearest_even (shr_m mrs) (loc_of_shr_record mrs) = shr_m mrs).
Proof.
  destruct mrs as [m [] []]; cbn; split; try done; try lia;
    destruct (Z.even m); lia.
Qed.

Lemma shr_fexp_record (m e : Z) (mrs : shr_record) (e' : Z) :
  0 <= m ->
  shr_fexp prec emax m e loc_Exact = (mrs, e') ->
  let k := fexp prec emax (Zdigits2 m + e) - e in
  (k <= 0 -> shr_r mrs = false) /\
  (0 < k -> shr_r mrs = Z.testbit m (k - 1)).
Proof.
  intros Hm. unfold shr_fexp, shr.
  destruct (fexp prec emax (Zdigits2 m + e) - e) as [|p|p] eqn:K;
    intros [= <- <-]; cbn zeta; split; try done; try lia.
  intros _. by rewrite shr_r_iter.
Qed.

(** The number of bits of a number below a power of two. *)
Lemma Zdigits2_le (m d : Z) : 0 < m -> 0 <= d -> m < 2 ^ d -> Zdigits2 m <= d.
Proof.
  intros Hm Hd Hlt. destruct m as [|p|p]; [lia| |lia]. cbn [Zdigits2].
  pose proof (digits2_pos_bounds p) as [Hlow _].
  destruct (Z_le_gt_dec (Zpos (digits2_pos p)) d) as [|Hgt]; [done|].
  assert (2 ^ d <= 2 ^ (Zpos (digits2_pos p) - 1))
    by (apply Z.pow_le_mono_r; lia).
  lia.
Qed.

Lemma Zdigits2_pow53 : Zdigits2 (2 ^ 53) = 54.
Proof. reflexivity. Qed.

(** Rounding gives the infinity only from the threshold on. *)
Lemma binary_round_aux_overflow (m e : Z) :
  0 < m -> -1074 <= e <= 971 ->
  binary_round_aux prec emax false m e loc_Exact = S754_infinity false ->
  overflow_threshold <= scaled m e.
Proof.
  intros Hm He. unfold binary_round_aux.
  destruct (shr_fexp prec emax m e loc_Exact) as [mrs1 e1] eqn:E1.
  pose proof (shr_fexp_spec m e _ _ _ ltac:(lia) E1) as Hspec.
  pose proof (shr_fexp_record m e _ _ ltac:(lia) E1) as Hrec.
  cbv zeta in Hspec, Hrec.
  destruct Hspec as [He1 Hq]. destruct Hrec as [Hr0 Hr1].
  pose proof (round_nearest_even_le mrs1) as [Hup Hsame].
  pose proof (round_nearest_even_ge (shr_m mrs1) (loc_of_shr_record mrs1))
    as Hdown.
  set (m1 := round_nearest_even _ _) in *.
  destruct (shr_fexp prec emax m1 e1 loc_Exact) as [mrs2 e2] eqn:E2.
  set (d := Zdigits2 m) in *.
  assert (2 ^ (d - 1) <= m < 2 ^ d) as Hd.
  { destruct m as [|p|p]; [lia| |lia]. apply digits2_pos_bounds. }
  assert (0 < d) as Hdpos
    by (destruct m as [|p|p]; [lia| |lia]; unfold d; cbn; lia).
  set (k := fexp prec emax (d + e) - e) in *.
  assert (d - 53 <= k /\ (-1074 < e + k -> k = d - 53)) as [Hk Hk'].
  { unfold k, fexp, emin. change prec with 53. change emax with 1024. lia. }
  assert (shr_m mrs1 < 2 ^ 53) as Hq53.
  { rewrite Hq. apply Z.div_lt_upper_bound; [apply Z.pow_pos_nonneg; lia|].
    rewrite <- Z.pow_add_r by lia.
    eapply Z.lt_le_trans; [apply Hd|]. apply Z.pow_le_mono_r; lia. }
  assert (0 <= shr_m mrs1) as Hq0
    by (rewrite Hq; apply Z.div_pos; [lia|apply Z.pow_pos_nonneg; lia]).
  destruct (Z_le_gt_dec m1 0) as [Hm1|Hm1].
  { (* nothing is left: the result is a zero *)
    destruct m1 as [|p|p]; [|lia|].
    - unfold shr_fexp, shr in E2. cbn [Zdigits2] in E2.
      destruct (fexp prec emax (0 + e1) - e1) as [|p|p];
        injection E2 as <- <-; try done.
      rewrite shr_m_iter by done. done.
    - lia. }
  pose proof (shr_fexp_spec m1 e1 _ _ _ ltac:(lia) E2) as Hspec2.
  cbv zeta in Hspec2. destruct Hspec2 as [He2 Hm2]. rewrite Hm2.
  destruct (m1 / 2 ^ _) as [|m2|m2]; [done| |done].
  destruct (Z.leb_spec e2 (emax - prec)) as [|He2big]; [done|].
  change (emax - prec) with 971 in He2big. intros _.
  assert (0 < 2 ^ (e + 1074)) as Hpe by (apply Z.pow_pos_nonneg; lia).
  destruct (Z_lt_ge_dec m1 (2 ^ 53)) as [Hsmall|Hbig].
  - (* no carry: the exponent itself is too large *)
    assert (Zdigits2 m1 <= 53) as Hd1 by (apply Zdigits2_le; lia).
    assert (fexp prec emax (Zdigits2 m1 + e1) - e1 <= 0) as Hk2.
    { unfold fexp, emin. change prec with 53. change emax with 1024. lia. }
    assert (1025 <= d + e) as Hbig.
    { unfold k, fexp, emin in *. change prec with 53 in *.
      change emax with 1024 in *. lia. }
    unfold overflow_threshold, scaled.
    transitivity (2 ^ (d - 1) * 2 ^ (e + 1074));
      [|apply Z.mul_le_mono_nonneg_r; lia].
    rewrite <- Z.pow_add_r by lia.
    transitivity (2 ^ 54 * 2 ^ 2044);
      [apply Z.mul_le_mono_nonneg_r; [apply Z.pow_nonneg|]; lia|].
    rewrite <- Z.pow_add_r by lia. apply Z.pow_le_mono_r; lia.
  - (* a carry: the number was rounded up to [2 ^ 53] *)
    assert (m1 = 2 ^ 53) as Hm1' by lia.
    assert (shr_m mrs1 = 2 ^ 53 - 1) as Hq' by lia.
    assert (shr_r mrs1 = true) as Hr.
    { destruct (shr_r mrs1) eqn:R; [done|]. specialize (Hsame eq_refl). lia. }
    assert (0 < k) as Hkpos.
    { destruct (Z_le_gt_dec k 0) as [Hle|]; [|lia].
      specialize (Hr0 Hle). congruence. }
    rewrite (Hr1 Hkpos) in Hr.
    pose proof (testbit_lower m k ltac:(lia) Hkpos Hr) as Hlow.
    replace (Z.max 0 k) with k in * by lia.
    rewrite <- Hq, Hq' in Hlow.
    assert (971 <= e + k) as He1big.
    { rewrite Hm1', Zdigits2_pow53 in He2. unfold fexp, emin in He2.
      change prec with 53 in He2. change emax with 1024 in He2. lia. }
    unfold overflow_threshold, scaled.
    transitivity ((2 * (2 ^ 53 - 1) + 1) * 2 ^ (k - 1) * 2 ^ (e + 1074));
      [|apply Z.mul_le_mono_nonneg_r; lia].
    rewrite <- Z.mul_assoc, <- Z.pow_add_r by lia.
    apply Z.mul_le_mono_nonneg; try lia;
      try (apply Z.pow_nonneg; lia); apply Z.pow_le_mono_r; lia.
Qed.

Lemma binary_round_overflow (m : positive) (e : Z) :
  -1074 <= e <= 971 ->
  binary_round prec emax false m e = S754_infinity false ->
  overflow_threshold <= scaled (Zpos m) e.
Proof.
  intros He. unfold binary_round.
  pose proof (shl_align_scaled m e
                (fexp prec emax (Zpos (digits2_pos m) + e)) ltac:(lia)
                (fexp_ge _)) as [Hval Hexp].
  pose proof (fexp_ge (Zpos (digits2_pos m) + e)).
  destruct (shl_align m e _) as [mz ez]. cbn [fst snd] in *.
  intros Hinf. rewrite <- Hval.
  apply binary_round_aux_overflow; [lia|lia|done].
Qed.

(** The sum of two positive numbers is the infinity only if their values
    add up to the threshold. *)
Lemma SFadd_overflow (ma : positive) (ea : Z) (mb : positive) (eb : Z) :
  canon ma ea -> canon mb eb ->
  SFadd prec emax (S754_finite false ma ea) (S754_finite false mb eb)
  = S754_infinity false ->
  overflow_threshold <= scaled (Zpos ma) ea + scaled (Zpos mb) eb.
Proof.
  intros Ha Hb. unfold SFadd, cond_Zopp.
  destruct (canon_facts ma ea Ha) as (Hea & _).
  destruct (canon_facts mb eb Hb) as (Heb & _).
  pose proof (shl_align_scaled ma ea (Z.min ea eb)) as [Hva Hxa]; [lia..|].
  pose proof (shl_align_scaled mb eb (Z.min ea eb)) as [Hvb Hxb]; [lia..|].
  destruct (shl_align ma ea _) as [ma' ea'].
  destruct (shl_align mb eb _) as [mb' eb']. cbn [fst snd] in *.
  cbn [Z.add binary_normalize]. intros Hinf.
  apply binary_round_overflow in Hinf; [|lia].
  assert (ea' = Z.min ea eb) as Hea' by lia.
  assert (eb' = Z.min ea eb) as Heb' by lia.
  rewrite <- Hva, <- Hvb, Hea', Heb'.
  unfold scaled in *. rewrite Pos2Z.inj_add in Hinf. lia.
Qed.

Local Open Scope float_scope.

Lemma rk_eight : rk 8 = (2 ^ 1077)%Z.
Proof. vm_compute. reflexivity. Qed.

(** Adding less than 8 to a finite number that is not negative gives a
    finite number. *)
Lemma add_finite (t d : float) :
  (0 <=? t) = true -> (t <? infinity) = true ->
  (0 <=? d) = true -> (d <? 8) = true ->
  (t + d <? infinity) = true.
Proof.
  intros Ht Hfin Hd Hd8.
  destruct (add_rk t d Ht Hd) as [Hn _].
  apply ltb_rk in Hfin, Hd8; [|done..]. rewrite rk_eight in Hd8.
  apply ltb_rk; [done..|].
  change (rk infinity) with rank_inf in *.
  pose proof (Prim2SF_valid (t + d)) as V.
  clear Hn. rewrite nonneg_iff in *. unfold rk in *.
  rewrite FloatAxioms.add_spec in *. unfold SF64add in *.
  pose proof (Prim2SF_valid t) as Vt. pose proof (Prim2SF_valid d) as Vd.
  assert (2 ^ 1077 < rank_inf)%Z as Hsmall
    by (unfold rank_inf; apply Z.pow_lt_mono_r; lia).
  destruct (Prim2SF t) as [st|[]| |[] mt et];
    try (exact (False_ind _ Ht));
    destruct (Prim2SF d) as [sd|[]| |[] md ed];
    try (exact (False_ind _ Hd));
    try (cbn [SFadd rank] in *; lia).
  - destruct st, sd; cbn [SFadd rank]; lia.
  - apply valid_canon in Vt, Vd. cbn [rank] in *.
    pose proof (SFadd_overflow mt et md ed Vt Vd) as Hov.
    destruct (SFadd prec emax _ _) as [?|[]| |[] m e] eqn:E;
      try (cbn [rank]; lia).
    + exfalso. specialize (Hov eq_refl).
      destruct (canon_facts mt et Vt) as (Het & _).
      pose proof (canon_below mt et Vt) as Hbelow.
      unfold overflow_threshold, scaled in *.
      assert (2 ^ 2045 = 2 * 2 ^ 2044)%Z as H2045
        by (change 2045%Z with (Z.succ 2044); apply Z.pow_succ_r; lia).
      assert (2 ^ 1077 <= 2 ^ 2044)%Z as H1077
        by (apply Z.pow_le_mono_r; lia).
      assert (0 < 2 ^ (et + 1074))%Z as Hp
        by (apply Z.pow_pos_nonneg; lia).
      assert (Zpos mt + 1 <= 2 ^ 53)%Z as Hmt.
      { apply Z.mul_lt_mono_pos_r in Hbelow; [lia|done]. }
      assert (Zpos mt * 2 ^ (et + 1074) <= (2 ^ 53 - 1) * 2 ^ 2045)%Z
        as Hvt.
      { transitivity ((2 ^ 53 - 1) * 2 ^ (et + 1074))%Z.
        - apply Z.mul_le_mono_nonneg_r; lia.
        - apply Z.mul_le_mono_nonneg_l; [lia|].
          apply Z.pow_le_mono_r; lia. }
      lia.
    + apply valid_canon, canon_lt_top in V. cbn [rank]. lia.
Qed.

End Overflow.
(** ** The event slots, pass by pass *)

Section Slots.

Variable src : Source.

Lemma slots_consistent_pass (s s' : Sim) :
  station_inv s -> slots_consistent s ->
  loop_body src s = Continue s' -> slots_consistent s'.
Proof.
  intros (Hok & _ & _) [_ Hidle] Hpass.
  apply loop_body_continue in Hpass as [[_ ->]|[_ (r & _ & ->)]];
    apply slots_consistent_update.
  - rewrite process_arrival_server_busy. done.
  - rewrite handle_departure_server_busy, handle_departure_next_departure.
    unfold station_ok in Hok.
    change (queue (set_clock (next_event_time s) s)) with (queue s).
    change (server_busy (set_clock (next_event_time s) s))
      with (server_busy s).
    destruct (queue s); [done|]. congruence.
Qed.

End Slots.

(** ** The order of the times of a run *)

Section Times.

Variable src : Source.
Hypothesis Hsrc : in_range src.

Local Open Scope float_scope.

Lemma in_range_nonneg (k : nat) :
  (0 <=? interarrival_draw src k) = true /\
  (interarrival_draw src k <? 8) = true /\
  (0 <=? service_draw src k) = true.
Proof.
  destruct (Hsrc k) as (Hi & Hi8 & Hs & _).
  destruct (at_least_one _ Hi) as (_ & _ & Hi' & _).
  destruct (at_least_one _ Hs) as (_ & _ & Hs' & _). done.
Qed.

Lemma leb_min (t a b : float) :
  (0 <=? t) = true -> (t <=? a) = true -> (t <=? b) = true ->
  (t <=? Py.min a b) = true /\
  (Py.min a b <=? a) = true /\ (Py.min a b <=? b) = true.
Proof.
  intros Ht Ha Hb.
  pose proof (leb_nonneg t a Ht Ha) as Na.
  pose proof (leb_nonneg t b Ht Hb) as Nb.
  destruct (min_rk a b Na Nb) as [Nm Hm].
  apply leb_rk in Ha, Hb; [|done..].
  rewrite !leb_rk by done. lia.
Qed.

Lemma add_leb (t d : float) :
  (0 <=? t) = true -> (0 <=? d) = true -> (t <=? t + d) = true.
Proof.
  intros Ht Hd. destruct (add_rk t d Ht Hd) as [Hn Hr].
  by apply leb_rk.
Qed.

(** What [handle_arrival] leaves in the arrival slot. *)
Lemma handle_arrival_next_arrival (r : nat) (s : Sim) :
  next_arrival (handle_arrival src r s)
  = if (len (customers s) <? num_customers s - 1)%Z
    then clock s + interarrival_draw src (ia_calls s)
    else next_arrival s.
Proof.
  unfold handle_arrival.
  destruct (server_busy s) eqn:B; cbn.
  - destruct (len (customers s) <? num_customers s - 1)%Z; reflexivity.
  - unfold len. rewrite !length_alter.
    destruct (Z.of_nat (length (customers s)) <? num_customers s - 1)%Z;
      reflexivity.
Qed.

Lemma process_arrival_next_arrival (s : Sim) :
  next_arrival (process_arrival src s)
  = if (len (customers s) + 1 <? num_customers s - 1)%Z
    then clock s + interarrival_draw src (ia_calls s)
    else next_arrival s.
Proof.
  rewrite process_arrival_eq, handle_arrival_next_arrival.
  cbn [customers set_customers generate_service_time snd num_customers clock
       ia_calls next_arrival].
  unfold len. rewrite length_app. cbn [length].
  replace (Z.of_nat (length (customers s) + 1))
    with (Z.of_nat (length (customers s)) + 1)%Z by lia.
  reflexivity.
Qed.

Lemma process_arrival_next_departure (s : Sim) :
  next_departure (process_arrival src s)
  = if server_busy s then next_departure s
    else clock s + service_draw src (sv_calls s).
Proof.
  destruct (process_arrival_lookup_new src s) as (c & Hc & _ & _ & Hsv & Hb).
  assert (next_departure (process_arrival src s)
          = if server_busy s then next_departure s
            else departure_time
                   (deref (process_arrival src s) (length (customers s))))
    as ->.
  { rewrite process_arrival_eq.
    exact (handle_arrival_next_departure src (length (customers s)) _). }
  assert (deref (process_arrival src s) (length (customers s)) = c) as ->
    by (unfold deref; rewrite Hc; reflexivity).
  destruct (server_busy s); [reflexivity|].
  destruct Hb as [_ ->]. by rewrite Hsv.
Qed.

(** The record of the customer a departure puts in service. *)
Lemma handle_departure_started (r q : nat) (rest : list nat) (s : Sim)
      (c : Customer) :
  queue s = q :: rest -> customers s !! q = Some c ->
  customers (handle_departure r s) !! q
  = Some (mkCustomer (id c) (arrival_time c) (service_time c) (clock s)
                     (clock s + service_time c)) /\
  next_departure (handle_departure r s) = clock s + service_time c.
Proof.
  intros Hq Hc.
  assert (customers (handle_departure r s) !! q
          = Some (mkCustomer (id c) (arrival_time c) (service_time c)
                             (clock s) (clock s + service_time c))) as Hnew.
  { rewrite handle_departure_customers, Hq.
    rewrite !list_lookup_alter_eq, Hc. reflexivity. }
  split; [exact Hnew|].
  rewrite handle_departure_next_departure, Hq. unfold deref.
  rewrite Hnew. reflexivity.
Qed.

Lemma handle_departure_others (r r' : nat) (s : Sim) :
  head (queue s) <> Some r' ->
  customers (handle_departure r s) !! r' = customers s !! r'.
Proof.
  intros Hne. rewrite handle_departure_customers.
  destruct (queue s) as [|q0 rest]; [done|].
  rewrite !list_lookup_alter_ne; [done|..]; intros ->; by apply Hne.
Qed.

Lemma times_ordered_clock (s : Sim) :
  slots_consistent s -> times_ordered s ->
  times_ordered (set_clock (next_event_time s) s).
Proof.
  intros [Hmin _] (H0 & Ha & Hd & Hfin & Hcs). unfold times_ordered.
  cbn [clock next_arrival next_departure customers queue set_clock].
  rewrite Hmin.
  destruct (leb_min _ _ _ H0 Ha Hd) as (Hm & Hma & Hmd).
  split; [by eapply leb_trans|]. split; [done|]. split; [done|].
  split; [done|].
  intros r c Hc. destruct (Hcs r c Hc) as (Hsv & Harr & Hafin & Hclk & Hst).
  repeat split; try done. by eapply leb_trans.
Qed.

Lemma times_ordered_update (s : Sim) :
  times_ordered s -> times_ordered (update_next_event_time s).
Proof. intros H. exact H. Qed.

Lemma times_ordered_arrival (s : Sim) :
  times_ordered s -> clock s = next_arrival s ->
  times_ordered (process_arrival src s).
Proof.
  intros (H0 & Ha & Hd & Hfin & Hcs) Hnow. unfold times_ordered.
  rewrite process_arrival_clock, process_arrival_next_arrival,
    process_arrival_next_departure, process_arrival_queue.
  destruct (in_range_nonneg (ia_calls s)) as (Hia & Hia8 & _).
  destruct (in_range_nonneg (sv_calls s)) as (_ & _ & Hsv).
  split; [done|]. split.
  { destruct (_ <? _)%Z; [by apply add_leb|done]. }
  split.
  { destruct (server_busy s); [done|by apply add_leb]. }
  split.
  { destruct (_ <? _)%Z; [|done]. unfold below_inf.
    apply add_finite; try done. rewrite Hnow. exact Hfin. }
  intros r c Hc.
  assert (r < S (length (customers s)))%nat as Hr.
  { apply lookup_lt_Some in Hc. by rewrite process_arrival_length in Hc. }
  destruct (decide (r = length (customers s))) as [->|Hne].
  - destruct (process_arrival_lookup_new src s)
      as (c' & Hc' & _ & Harr & Hsv' & Hb).
    rewrite Hc in Hc'. injection Hc' as <-.
    rewrite Harr, Hsv'.
    split; [done|]. split; [by rewrite <- Hnow|]. split; [done|].
    rewrite <- Hnow. split; [by apply leb_refl|].
    destruct (server_busy s).
    + intros Hq. exfalso. apply Hq, elem_of_app. right.
      by apply list_elem_of_singleton.
    + intros _. destruct Hb as [-> _]. by apply leb_refl.
  - rewrite process_arrival_lookup_old in Hc by lia.
    destruct (Hcs r c Hc) as (Hsvc & Harr & Hafin & Hclk & Hst).
    repeat split; try done. intros Hq. apply Hst.
    destruct (server_busy s); [|done].
    intros Hin. apply Hq, elem_of_app. by left.
Qed.

Lemma times_ordered_departure (r : nat) (s : Sim) :
  refs_valid s -> times_ordered s -> times_ordered (handle_departure r s).
Proof.
  intros Hrefs (H0 & Ha & Hd & Hfin & Hcs). unfold times_ordered.
  rewrite handle_departure_clock, handle_departure_next_arrival,
    handle_departure_queue.
  destruct (queue s) as [|q rest] eqn:Q.
  - rewrite handle_departure_next_departure, Q.
    split; [done|]. split; [done|]. split; [by apply leb_inf|].
    split; [done|].
    intros r' c Hc. rewrite handle_departure_customers, Q in Hc.
    destruct (Hcs r' c Hc) as (Hsv & Harr & Hafin & Hclk & Hst).
    repeat split; done.
  - unfold refs_valid in Hrefs. rewrite Q in Hrefs.
    inversion Hrefs as [|? ? Hq _]; subst.
    apply lookup_lt_is_Some in Hq as [cq Hcq].
    destruct (handle_departure_started r q rest s cq Q Hcq) as [Hnew Hnd].
    destruct (Hcs q cq Hcq) as (Hsvq & Harrq & Hafinq & Hclkq & _).
    rewrite Hnd.
    split; [done|]. split; [done|]. split; [by apply add_leb|].
    split; [done|].
    intros r' c Hc. cbn [tail].
    destruct (decide (r' = q)) as [->|Hne].
    + rewrite Hnew in Hc. injection Hc as <-. cbn. done.
    + rewrite handle_departure_others in Hc
        by (rewrite Q; cbn; congruence).
      destruct (Hcs r' c Hc) as (Hsv & Harr & Hafin & Hclk & Hst).
      repeat split; try done. intros Hq. apply Hst.
      intros [?|?]%elem_of_cons; done.
Qed.

(** The times of every state of a run on draws of the stated ranges are
    in order. *)
Lemma times_ordered_run (n : Z) (fuel : nat) :
  times_ordered (state_of (main_loop src fuel (start src n))).
Proof.
  enough (station_inv (state_of (main_loop src fuel (start src n))) /\
          slots_consistent (state_of (main_loop src fuel (start src n))) /\
          times_ordered (state_of (main_loop src fuel (start src n))))
    as (_ & _ & H) by exact H.
  apply (main_loop_invariant src
           (fun s => station_inv s /\ slots_consistent s /\ times_ordered s)).
  - intros s (Hi & Hs & Ht).
    split; [by eapply station_inv_fields; [..|exact Hi]|].
    split; [by apply slots_consistent_clock|]. by apply times_ordered_clock.
  - intros s s' (Hi & Hs & Ht) Hpass.
    split; [by eapply station_inv_pass|].
    split; [by eapply slots_consistent_pass|].
    pose proof (times_ordered_clock s Hs Ht) as Ht0.
    apply loop_body_continue in Hpass as [[Hdue ->]|[_ (r & _ & ->)]];
      apply times_ordered_update.
    + apply times_ordered_arrival; [done|].
      cbn [clock next_arrival set_clock]. destruct Hs as [-> _].
      apply min_of_leb. unfold arrival_due in Hdue.
      by apply andb_true_iff in Hdue as [Hle _].
    + apply times_ordered_departure; [|done].
      destruct Hi as (_ & Hrefs & _). exact Hrefs.
  - split; [apply station_inv_init|]. split; [split; reflexivity|].
    split; [reflexivity|]. split; [reflexivity|]. split; [reflexivity|].
    split; [reflexivity|]. intros r c Hc. done.
Qed.

(** A customer that has been put in service has a waiting time that is
    at least 0. *)
Lemma waiting_time_nonneg (n : Z) (fuel : nat) (r : nat) (c : Customer) :
  let s := state_of (main_loop src fuel (start src n)) in
  customers s !! r = Some c -> r ∉ queue s ->
  (0 <=? waiting_time c) = true /\ (waiting_time c <? 0) = false.
Proof.
  intros s Hc Hq.
  destruct (times_ordered_run n fuel) as (_ & _ & _ & _ & Hcs).
  destruct (Hcs r c Hc) as (_ & Harr & Hfin & _ & Hst).
  destruct (sub_rk _ _ Harr (Hst Hq)) as [Hneg Hpos].
  split; [by apply Hpos|exact Hneg].
Qed.

End Times.
(** ** The draws are used as they are *)

Section Draws.

Variable src : Source.

Local Open Scope float_scope.

Lemma handle_arrival_calls (r : nat) (s : Sim) :
  ia_calls (handle_arrival src r s)
  = (if (len (customers s) <? num_customers s - 1)%Z
     then S (ia_calls s) else ia_calls s) /\
  sv_calls (handle_arrival src r s)
  = (if (len (customers s) <? num_customers s - 1)%Z
     then S (sv_calls s) else sv_calls s).
Proof.
  unfold handle_arrival.
  destruct (server_busy s) eqn:B; cbn.
  - destruct (len (customers s) <? num_customers s - 1)%Z; done.
  - unfold len. rewrite !length_alter.
    destruct (Z.of_nat (length (customers s)) <? num_customers s - 1)%Z;
      done.
Qed.

Lemma process_arrival_calls (s : Sim) :
  ia_calls (process_arrival src s)
  = (if (len (customers s) + 1 <? num_customers s - 1)%Z
     then S (ia_calls s) else ia_calls s) /\
  sv_calls (process_arrival src s)
  = (if (len (customers s) + 1 <? num_customers s - 1)%Z
     then S (S (sv_calls s)) else S (sv_calls s)).
Proof.
  rewrite process_arrival_eq.
  destruct (handle_arrival_calls (length (customers s))
              (set_customers
                 (customers s ++ [new_Customer (len (customers s))
                                    (next_arrival s)
                                    (service_draw src (sv_calls s))])
                 (snd (generate_service_time src s)))) as [-> ->].
  cbn [customers set_customers generate_service_time snd num_customers
       ia_calls sv_calls].
  unfold len. rewrite length_app. cbn [length].
  replace (Z.of_nat (length (customers s) + 1))
    with (Z.of_nat (length (customers s)) + 1)%Z by lia.
  done.
Qed.

(** The record a departure leaves at a position has the arrival and the
    service time of the record that was there. *)
Lemma handle_departure_lookup_inv (r0 r : nat) (s : Sim) (c' : Customer) :
  customers (handle_departure r0 s) !! r = Some c' ->
  exists c, customers s !! r = Some c /\
            arrival_time c' = arrival_time c /\
            service_time c' = service_time c.
Proof.
  intros Hc'.
  assert (r < length (customers s))%nat as Hr.
  { apply lookup_lt_Some in Hc'. by rewrite handle_departure_length in Hc'. }
  apply lookup_lt_is_Some in Hr as [c Hc].
  destruct (handle_departure_lookup r0 r s c Hc) as (c'' & Hc'' & _ & Ha & Hs & _).
  rewrite Hc' in Hc''. injection Hc'' as <-. by exists c.
Qed.

Lemma draws_used_clock (s : Sim) (t : float) :
  draws_used src s -> draws_used src (set_clock t s).
Proof. intros H. exact H. Qed.

Lemma draws_used_update (s : Sim) :
  draws_used src s -> draws_used src (update_next_event_time s).
Proof. intros H. exact H. Qed.

Lemma draws_used_arrival (s : Sim) :
  draws_used src s -> clock s = next_arrival s ->
  draws_used src (process_arrival src s).
Proof.
  intros (Hia & Hsv & Hst & Hzero & Hpair & Hnil & Hlast) Hnow.
  unfold draws_used.
  destruct (process_arrival_calls s) as [-> ->].
  rewrite process_arrival_next_arrival. unfold len in *.
  rewrite process_arrival_length, process_arrival_num_customers.
  destruct (process_arrival_lookup_new src s)
    as (cn & Hcn & _ & Harr & Hsvn & _).
  set (L := length (customers s)) in *.
  set (n := num_customers s) in *.
  assert (forall r c, (r < L)%nat ->
            customers (process_arrival src s) !! r = Some c ->
            customers s !! r = Some c) as Hold.
  { intros r c Hr Hc. by rewrite process_arrival_lookup_old in Hc. }
  assert (forall r c, customers (process_arrival src s) !! r = Some c ->
            (r < L)%nat \/ (r = L /\ c = cn)) as Hcases.
  { intros r c Hc. destruct (decide (r < L)%nat); [by left|right].
    assert (r < S L)%nat
      by (apply lookup_lt_Some in Hc;
          by rewrite process_arrival_length in Hc).
    assert (r = L) as -> by lia. split; [done|]. congruence. }
  split; [|split; [|split; [|split; [|split; [|split]]]]].
  - destruct (Z.ltb_spec (Z.of_nat L + 1) (n - 1)); lia.
  - destruct (Z.ltb_spec (Z.of_nat L + 1) (n - 1)); lia.
  - intros r c Hc. destruct (Hcases r c Hc) as [Hr|[-> ->]].
    + apply Hst. by apply Hold.
    + rewrite Hsvn. f_equal. unfold service_index. fold n. lia.
  - intros c Hc. destruct (Hcases 0%nat c Hc) as [Hr|[HL0 ->]].
    + apply Hzero. by apply Hold.
    + rewrite Harr. apply Hnil. apply nil_length_inv. done.
  - intros r c c' Hc Hc' Hn.
    destruct (Hcases (S r) c' Hc') as [Hr|[HrL ->]].
    + apply (Hpair r c c'); [apply Hold; [lia|done]|by apply Hold|done].
    + assert (customers s !! r = Some c) as Hc0 by (apply Hold; [lia|done]).
      rewrite Harr.
      replace r with (L - 1)%nat in * by lia.
      apply Hlast; [done|lia].
  - intros Hnil'. apply (f_equal length) in Hnil'.
    rewrite process_arrival_length in Hnil'. done.
  - replace (S L - 1)%nat with L by lia. intros c Hc Hn.
    rewrite Hcn in Hc. injection Hc as <-.
    destruct (Z.ltb_spec (Z.of_nat L + 1) (n - 1)); [|lia].
    rewrite Hnow, Harr. do 2 f_equal. lia.
Qed.

Lemma draws_used_departure (r : nat) (s : Sim) :
  draws_used src s -> draws_used src (handle_departure r s).
Proof.
  intros (Hia & Hsv & Hst & Hzero & Hpair & Hnil & Hlast).
  unfold draws_used, len in *.
  destruct (handle_departure_draws r s) as [-> ->].
  rewrite handle_departure_length, handle_departure_num_customers,
    handle_departure_next_arrival.
  split; [done|]. split; [done|].
  split; [|split; [|split; [|split]]].
  - intros r0 c' Hc'.
    destruct (handle_departure_lookup_inv r r0 s c' Hc') as (c & Hc & _ & ->).
    by apply Hst.
  - intros c' Hc'.
    destruct (handle_departure_lookup_inv r 0 s c' Hc') as (c & Hc & -> & _).
    by apply Hzero.
  - intros r0 c1 c2 Hc1 Hc2 Hn.
    destruct (handle_departure_lookup_inv r r0 s c1 Hc1) as (d1 & Hd1 & -> & _).
    destruct (handle_departure_lookup_inv r (S r0) s c2 Hc2)
      as (d2 & Hd2 & -> & _).
    by apply (Hpair r0).
  - intros Hnil'. apply Hnil. apply nil_length_inv.
    apply (f_equal length) in Hnil'.
    by rewrite handle_departure_length in Hnil'.
  - intros c' Hc' Hn.
    destruct (handle_departure_lookup_inv r _ s c' Hc') as (c & Hc & -> & _).
    by apply Hlast.
Qed.

(** Every state of a run has used the draws made so far as they are. *)
Lemma draws_used_run (n : Z) (fuel : nat) :
  draws_used src (state_of (main_loop src fuel (start src n))).
Proof.
  enough (station_inv (state_of (main_loop src fuel (start src n))) /\
          slots_consistent (state_of (main_loop src fuel (start src n))) /\
          draws_used src (state_of (main_loop src fuel (start src n))))
    as (_ & _ & H) by exact H.
  apply (main_loop_invariant src
           (fun s => station_inv s /\ slots_consistent s /\ draws_used src s)).
  - intros s (Hi & Hs & Ht).
    split; [by eapply station_inv_fields; [..|exact Hi]|].
    split; [by apply slots_consistent_clock|]. exact Ht.
  - intros s s' (Hi & Hs & Ht) Hpass.
    split; [by eapply station_inv_pass|].
    split; [by eapply slots_consistent_pass|].
    apply loop_body_continue in Hpass as [[Hdue ->]|[_ (r & _ & ->)]];
      apply draws_used_update.
    + apply draws_used_arrival; [by apply draws_used_clock|].
      cbn [clock next_arrival set_clock]. destruct Hs as [-> _].
      apply min_of_leb. unfold arrival_due in Hdue.
      by apply andb_true_iff in Hdue as [Hle _].
    + apply draws_used_departure. by apply draws_used_clock.
  - split; [apply station_inv_init|]. split; [split; reflexivity|].
    unfold draws_used. cbn. repeat split; try done; lia.
Qed.

End Draws.

(** ** The sums a run accumulates *)

Section Sums.

Variable src : Source.

Local Open Scope float_scope.





End Sums.

(** ** A lookup that can only resolve to one customer *)

Section Unique.

Local Open Scope float_scope.



End Unique.

(** ** The claims of the specification *)

Section Claims.

Local Open Scope float_scope.

(** C1 (the code departs from the claim).  With three customers and the
    constant source, the third pass handles the arrival of customer 1 and
    schedules nothing further; the pending arrival is nevertheless left in
    its slot (time 3, not [float('inf')]), so the fourth pass fires it again
    as the arrival of the last customer, and after that arrival the slot
    still holds 3: the next event chosen is the stale arrival time, at
    which no customer departs, and the run raises [StopIteration]. *)
Theorem C1_last_arrival_leaves_pending_arrival :
  exists s3 s4 : Sim,
    main_loop demo 3 (start demo 3) = Running s3 /\
    length (customers s3) = 2%nat /\
    next_arrival s3 = 3 /\
    loop_body demo s3 = Continue s4 /\
    s4 = update_next_event_time
           (process_arrival demo (set_clock (next_event_time s3) s3)) /\
    arrival_time <$> customers s4 = [0; 3; 3] /\
    next_arrival s4 = 3 /\
    next_event_time s4 = 3 /\
    main_loop demo 1 s4 = Raised Py.StopIteration s4.
Proof.
  eexists _, _. split; [vm_compute; reflexivity|].
  repeat split; vm_compute; reflexivity.
Qed.

(** C2 (the code departs from the claim).  With one customer, whatever the
    durations drawn and however long the loop is observed, [run] does not
    return the metrics: the pending-event set is never exhausted, because
    the arrival slot keeps its last time. *)
Theorem C2_single_customer_run_never_returns (src : Source) (fuel : nat) :
  returned (run src fuel 1) = false.
Proof.
  unfold run.
  pose proof (arrivals_exhausted_never_exits src fuel (start src 1)
                (arrivals_exhausted_start src 1 ltac:(lia))) as H.
  destruct (main_loop src fuel (start src 1)); [discriminate H|done|done].
Qed.



(** C4 (the code departs from the claim).  With one customer and any
    durations of the stated ranges, the customer arrives at time 0 and is
    put in service at once, but the run does not complete: the second pass
    takes the stale arrival time 0 as the clock, finds no customer
    departing then, and [run] raises [StopIteration] with the clock at 0,
    no time accounted as busy, and no utilization computed. *)
Theorem C4_single_customer_run_raises (src : Source) (fuel : nat) :
  in_range src ->
  run src (S (S fuel)) 1
  = Failed Py.StopIteration (stuck1 (service_draw src 1)).
Proof.
  intros Hsrc. destruct (single_customer_passes src Hsrc) as [P1 P2].
  unfold run. cbn [main_loop]. change (clock (start src 1)) with 0.
  change (0 <? Py.inf) with true. cbv iota. rewrite P1.
  change (clock (stuck1 _)) with 0. change (0 <? Py.inf) with true.
  cbv iota. rewrite P2. reflexivity.
Qed.

(** The run of one customer with the constant source. *)
Lemma C4_single_customer_run_raises_witness :
  run demo 2 1 = Failed Py.StopIteration (stuck1 2).
Proof. exact (C4_single_customer_run_raises demo 0 demo_in_range). Defined.





Lemma rounding_in_range : in_range rounding.
Proof. intros k. repeat split. Qed.

(** C7, as stated, fails, with durations of the ranges of the program:
    the fourth pass of the run for four customers dispatches the
    departure of customer 1, alone in the station and in service since
    its arrival at time 6; its departure time 7 is the rounded sum of 6
    and its service time [1 + 2 ^ -52], so that its time in system is 1
    and its waiting time 0: the time in system is not the sum of the
    waiting time and the service time, before the pass or after it. *)
Lemma C7_identity_counterexample :
  let s := state_of (main_loop rounding 3 (start rounding 4)) in
  let s0 := set_clock (next_event_time s) s in
  let c := mkCustomer 1 6 0x1.0000000000001p+0 6 7 in
  main_loop rounding 3 (start rounding 4) = Running s /\
  customers s !! 1%nat = Some c /\
  server_busy s = true /\ queue s = [] /\
  clock s0 = departure_time c /\
  matches (clock s0) (customers s0) = 1%nat /\
  loop_body rounding s
  = Continue (update_next_event_time (handle_departure 1 s0)) /\
  customers (update_next_event_time (handle_departure 1 s0)) !! 1%nat
  = Some c /\
  waiting_time c = 0 /\ (0 <=? waiting_time c) = true /\
  time_in_system c = 1 /\
  waiting_time c + service_time c = 0x1.0000000000001p+0 /\
  system_time_splits c = false.
Proof.
  cbv zeta. repeat (split; [vm_compute; reflexivity|]).
  vm_compute; reflexivity.
Qed.

(** C7 (amended).  With durations of the ranges of the program, every
    customer a run has taken out of the queue or put in service on arrival
    (so every customer that has completed) has a waiting time of at least
    0; its departure time is the sum, rounded as a float sum is, of its
    start of service and its service time, so that its time in system is
    that sum minus its arrival time. *)
Theorem C7_served_customer_times (src : Source) (n : Z) (fuel : nat)
        (r : nat) (c : Customer) :
  in_range src ->
  let s := state_of (main_loop src fuel (start src n)) in
  customers s !! r = Some c -> r ∉ queue s ->
  (0 <=? waiting_time c) = true /\
  departure_time c = service_start c + service_time c /\
  time_in_system c = service_start c + service_time c - arrival_time c.
Proof.
  intros Hsrc s Hc Hq.
  destruct (waiting_time_nonneg src Hsrc n fuel r c Hc Hq) as [Hpos _].
  pose proof (served_consistent_run src n fuel r c Hc Hq) as Hdep.
  split; [exact Hpos|]. split; [exact Hdep|].
  unfold time_in_system. by rewrite Hdep.
Qed.

(** Customer 1 of the run of the counterexample, after its departure. *)
Lemma C7_served_customer_times_witness :
  let c := mkCustomer 1 6 0x1.0000000000001p+0 6 7 in
  (0 <=? waiting_time c) = true /\
  departure_time c = service_start c + service_time c /\
  time_in_system c = service_start c + service_time c - arrival_time c.
Proof.
  assert (customers (state_of (main_loop rounding 4 (start rounding 4)))
          !! 1%nat = Some (mkCustomer 1 6 0x1.0000000000001p+0 6 7))
    as Hc by (vm_compute; reflexivity).
  assert (1%nat ∉ queue (state_of (main_loop rounding 4 (start rounding 4))))
    as Hq by (vm_compute; apply not_elem_of_nil).
  exact (C7_served_customer_times rounding 4 4 1 _ rounding_in_range Hc Hq).
Defined.

(** C8.  In whatever state a run is after any number of passes of its
    loop, that is after every arrival and every departure it has handled,
    the wait queue is non-empty only if the server is busy. *)
Theorem C8_queue_only_while_busy (src : Source) (n : Z) (fuel : nat) :
  station_ok (state_of (main_loop src fuel (start src n))) = true.
Proof. exact (proj1 (station_inv_run src n fuel)). Qed.

(** C9, as stated, fails: with [num_customers] 0 or negative the run does
    end at once, but by the [StopIteration] of the departure lookup on an
    empty customer list; and a drawn service time of -1 or of
    [float('inf')] is stored in the customer record and used to schedule
    its departure, the loop going on. *)
Lemma C9_no_validation_counterexample :
  run demo 1 0 = Failed Py.StopIteration (start demo 0) /\
  run demo 1 (-5) = Failed Py.StopIteration (start demo (-5)) /\
  (exists s, main_loop (const_source 3 (-1)) 1 (start (const_source 3 (-1)) 3)
             = Running s /\
             service_time <$> customers s = [-1] /\
             next_departure s = -1) /\
  (exists s, main_loop (const_source 3 infinity) 1
               (start (const_source 3 infinity) 3)
             = Running s /\
             service_time <$> customers s = [infinity] /\
             next_departure s = infinity).
Proof.
  split; [reflexivity|]. split; [reflexivity|].
  split; eexists; (split; [vm_compute; reflexivity|]); split; reflexivity.
Qed.

(** C9 (amended).  Nothing is validated.  With [num_customers] zero or
    negative the first pass finds no arrival due and no customer to
    depart, so that [run] raises [StopIteration] before any customer is
    created.  And whatever the source returns, every duration is used as
    it is: in every state of a run the service time of a customer is the
    draw made for it, its departure time, once it is out of the queue, is
    its start of service plus that service time, the first customer
    arrives at time 0, and each customer whose arrival was scheduled
    arrives at the arrival time of the customer before plus the
    inter-arrival time drawn then. *)
Theorem C9_nothing_is_validated (src : Source) (n : Z) (fuel : nat) :
  let s := state_of (main_loop src fuel (start src n)) in
  (n <= 0 ->
     run src (S fuel) n = Failed Py.StopIteration (start src n) /\
     customers (start src n) = []) /\
  (forall r c, customers s !! r = Some c ->
     service_time c = service_draw src (service_index n r) /\
     (r ∉ queue s ->
      departure_time c = service_start c + service_time c)) /\
  (forall c, customers s !! 0%nat = Some c -> arrival_time c = 0) /\
  (forall r c c',
     customers s !! r = Some c -> customers s !! S r = Some c' ->
     Z.of_nat r + 2 < n ->
     arrival_time c' = arrival_time c + interarrival_draw src r).
Proof.
  intros s.
  destruct (draws_used_run src n fuel) as (_ & _ & Hst & Hzero & Hpair & _).
  destruct (within_budget_run src n fuel) as [Hn _].
  fold s in Hst, Hzero, Hpair, Hn. rewrite Hn in Hst, Hpair.
  split; [|split; [|split]].
  - intros Hle. split; [|reflexivity].
    unfold run. rewrite main_loop_S.
    change (clock (start src n) <? Py.inf) with true. cbv iota.
    unfold loop_body. cbv zeta.
    change (clock (set_clock _ _) =? Py.inf) with false. cbv iota.
    assert (arrival_due (set_clock (next_event_time (start src n))
                                   (start src n)) = false) as ->.
    { unfold arrival_due. apply andb_false_iff. right.
      apply Z.ltb_ge. cbn. unfold len. cbn. lia. }
    reflexivity.
  - intros r c Hc. split; [by apply Hst|]. intros Hq.
    by apply (served_consistent_run src n fuel r c).
  - exact Hzero.
  - exact Hpair.
Qed.

(** C10.  A customer record is created with [service_start] and
    [departure_time] equal to 0.0, and every customer waiting in the queue
    of a run still has these two values.  For such a record with an
    arrival time [t > 0], the waiting time and the time in system are both
    [-t], a negative number; [get_customer_data] reports these values as
    they are; and whenever the clock is within the tolerance of 0 the
    record satisfies the condition of the departure lookup, which selects
    it unless an earlier record satisfies the condition too. *)
Theorem C10_unserved_customer_defaults (i : Z) (t sv : float) :
  (0 <? t) = true ->
  let c := new_Customer i t sv in
  service_start c = 0 /\ departure_time c = 0 /\
  (forall src n fuel r c',
     let s := state_of (main_loop src fuel (start src n)) in
     r ∈ queue s -> customers s !! r = Some c' ->
     service_start c' = 0 /\ departure_time c' = 0) /\
  waiting_time c = - t /\ time_in_system c = - t /\ (- t <? 0) = true /\
  (forall s r, customers s !! r = Some c ->
     get_customer_data s !! r = Some (mkRow i t sv (- t) 0 (- t))) /\
  (forall now, (abs now <? tolerance) = true ->
     departs_at now c = true /\
     forall before after,
       Forall (fun c' => departs_at now c' = false) before ->
       Py.next_index (departs_at now) (before ++ c :: after)
       = Some (length before)).
Proof.
  intros Ht c.
  assert (waiting_time c = - t) as Hw by (apply sub_zero_l; exact Ht).
  assert (time_in_system c = - t) as Hs by (apply sub_zero_l; exact Ht).
  split; [done|]. split; [done|]. split.
  { intros src n fuel r c' s Hr Hc'.
    destruct (waiting_unserved_run src n fuel) as (_ & _ & Hdef). eauto. }
  repeat split; try done.
  - by apply opp_pos_neg.
  - intros s r Hr. unfold get_customer_data.
    rewrite list_lookup_fmap, Hr. cbn.
    unfold waiting_time, time_in_system. cbn.
    by rewrite (sub_zero_l t Ht).
  - unfold departs_at. cbn. by rewrite abs_sub_zero_l.
  - intros before after Hbefore. apply next_index_skip; [exact Hbefore|].
    unfold departs_at. cbn. by rewrite abs_sub_zero_l.
Qed.

(** The same for the record of the third customer of the run of C1, who
    arrives at time 3 and is still waiting when the run stops. *)
Lemma C10_unserved_customer_defaults_witness :
  let c := new_Customer 2 3 2 in
  service_start c = 0 /\ departure_time c = 0 /\
  (forall src n fuel r c',
     let s := state_of (main_loop src fuel (start src n)) in
     r ∈ queue s -> customers s !! r = Some c' ->
     service_start c' = 0 /\ departure_time c' = 0) /\
  waiting_time c = - (3) /\ time_in_system c = - (3) /\
  (- (3) <? 0) = true /\
  (forall s r, customers s !! r = Some c ->
     get_customer_data s !! r = Some (mkRow 2 3 2 (- (3)) 0 (- (3)))) /\
  (forall now, (abs now <? tolerance) = true ->
     departs_at now c = true /\
     forall before after,
       Forall (fun c' => departs_at now c' = false) before ->
       Py.next_index (departs_at now) (before ++ c :: after)
       = Some (length before)).
Proof. exact (C10_unserved_customer_defaults 2 3 2 eq_refl). Defined.

End Claims.

(** ** Further properties of the code *)

Section Further.

Local Open Scope float_scope.

(** X1.  Whatever the draws and however many passes are made, a run keeps
    [num_customers] as it was given and never holds more than that many
    customer records (none at all when the number is not positive). *)
Theorem X1_customers_within_budget (src : Source) (n : Z) (fuel : nat) :
  let s := state_of (main_loop src fuel (start src n)) in
  num_customers s = n /\ (len (customers s) <= Z.max 0 n)%Z.
Proof. exact (within_budget_run src n fuel). Qed.

(** X2.  In every state of a run the customers are numbered by their
    position: the ids of the rows [get_customer_data] returns are 0, 1, 2,
    ... in this order, one row for each customer created. *)
Theorem X2_rows_are_numbered (src : Source) (n : Z) (fuel : nat) :
  let s := state_of (main_loop src fuel (start src n)) in
  row_id <$> get_customer_data s
  = Z.of_nat <$> seq 0 (length (customers s)).
Proof.
  intros s. pose proof (ids_are_positions_run src n fuel) as Hids.
  fold s in Hids. unfold get_customer_data.
  apply list_eq. intros i. rewrite !list_lookup_fmap.
  destruct (customers s !! i) as [c|] eqn:Hc; cbn.
  - rewrite (Hids i c Hc).
    apply lookup_lt_Some in Hc. by rewrite lookup_seq_lt.
  - apply lookup_ge_None in Hc. by rewrite lookup_seq_ge.
Qed.

(** X3.  A pass of the loop never removes a customer record and never
    changes the id, the arrival time or the service time of one; the only
    record whose start of service and departure time it may write, apart
    from the record it creates, is the one at the head of the wait
    queue. *)
Theorem X3_records_are_kept (src : Source) (s s' : Sim) (r : nat)
        (c : Customer) :
  loop_body src s = Continue s' ->
  customers s !! r = Some c ->
  exists c',
    customers s' !! r = Some c' /\
    id c' = id c /\ arrival_time c' = arrival_time c /\
    service_time c' = service_time c /\
    (head (queue s) <> Some r -> c' = c).
Proof.
  intros Hpass Hc.
  apply loop_body_continue in Hpass as [[_ ->]|[_ (r0 & _ & ->)]];
    rewrite customers_update_next_event_time.
  - exists c. split; [|done].
    rewrite (process_arrival_lookup_old src (set_clock (next_event_time s) s))
      by (by apply lookup_lt_Some in Hc).
    exact Hc.
  - exact (handle_departure_lookup r0 r (set_clock (next_event_time s) s)
             c Hc).
Qed.

(** In the third pass of the two-customer run customer 0 is left as it
    is. *)
Lemma X3_records_are_kept_witness :
  exists c',
    customers (stuck2 2 2) !! 0%nat = Some c' /\
    id c' = 0%Z /\ arrival_time c' = 0 /\ service_time c' = 2 /\
    (head (queue (queued2 2 2)) <> Some 0%nat -> c' = mkCustomer 0 0 2 0 2).
Proof.
  exact (X3_records_are_kept demo (queued2 2 2) (stuck2 2 2) 0
           (mkCustomer 0 0 2 0 2) eq_refl eq_refl).
Defined.

(** X4.  In every state of a run the wait queue lists its customers in
    increasing order of position, that is in the order of their creation,
    and every entry refers to an existing record: as [handle_departure]
    takes the head of the queue, customers are taken into service in the
    order in which they arrived. *)
Theorem X4_queue_is_first_in_first_out (src : Source) (n : Z) (fuel : nat) :
  let s := state_of (main_loop src fuel (start src n)) in
  queue_in_order s /\ refs_valid s /\ NoDup (queue s).
Proof.
  intros s. split; [apply queue_in_order_run|].
  destruct (waiting_unserved_run src n fuel) as (Hnd & Hrefs & _). done.
Qed.

(** X5.  In every state of a run a customer record is in one of two
    conditions: it waits in the queue and its start of service and
    departure time are still 0.0, or it is not in the queue and its
    departure time is the sum of its start of service and service time. *)
Theorem X5_waiting_or_served (src : Source) (n : Z) (fuel : nat) (r : nat)
        (c : Customer) :
  let s := state_of (main_loop src fuel (start src n)) in
  customers s !! r = Some c ->
  ((r ∈ queue s) /\ service_start c = 0 /\ departure_time c = 0) \/
  ((r ∉ queue s) /\ departure_time c = service_start c + service_time c).
Proof.
  intros s Hc. destruct (decide (r ∈ queue s)) as [Hin|Hout].
  - left. destruct (waiting_unserved_run src n fuel) as (_ & _ & Hdef).
    destruct (Hdef r c Hin Hc). done.
  - right. split; [done|]. by apply (served_consistent_run src n fuel r c).
Qed.

(** Customer 1 of the three-customer run with the constant source, put in
    service on arrival at time 3. *)
Lemma X5_waiting_or_served_witness :
  let s := state_of (main_loop demo 4 (start demo 3)) in
  ((1%nat ∈ queue s) /\ service_start (mkCustomer 1 3 2 3 5) = 0 /\
   departure_time (mkCustomer 1 3 2 3 5) = 0) \/
  ((1%nat ∉ queue s) /\
   departure_time (mkCustomer 1 3 2 3 5)
   = service_start (mkCustomer 1 3 2 3 5)
     + service_time (mkCustomer 1 3 2 3 5)).
Proof.
  exact (X5_waiting_or_served demo 3 4 1 (mkCustomer 1 3 2 3 5) eq_refl).
Defined.

(** X6.  In every state of a run the next event time is the minimum of the
    two slots; and while the server is idle nobody waits, no departure is
    pending, and the next event is the arrival in its slot. *)
Theorem X6_idle_server (src : Source) (n : Z) (fuel : nat) :
  let s := state_of (main_loop src fuel (start src n)) in
  next_event_time s = Py.min (next_arrival s) (next_departure s) /\
  (server_busy s = false ->
   queue s = [] /\ next_departure s = Py.inf /\
   next_event_time s = next_arrival s).
Proof.
  intros s.
  destruct (slots_consistent_run src n fuel) as [Hmin Hclear].
  pose proof (Hok := proj1 (station_inv_run src n fuel)).
  fold s in Hmin, Hclear, Hok. unfold station_ok in Hok.
  split; [exact Hmin|]. intros Hidle.
  split; [destruct (queue s); [done|congruence]|].
  split; [by apply Hclear|].
  rewrite Hmin, (Hclear Hidle). apply min_inf_r.
Qed.

(** X7.  In every state of a run the wait queue is no longer than the
    recorded [max_queue_length], which itself never exceeds
    [num_customers - 1] (0 when [num_customers] is not positive). *)
Theorem X7_max_queue_length_bounds (src : Source) (n : Z) (fuel : nat) :
  let s := state_of (main_loop src fuel (start src n)) in
  (len (queue s) <= max_queue_length (metrics s))%Z /\
  (max_queue_length (metrics s) <= Z.max 0 (n - 1))%Z.
Proof.
  intros s. destruct (queue_bounded_run src n fuel) as (H1 & H2 & _).
  destruct (within_budget_run src n fuel) as [_ H3].
  fold s in H1, H2, H3. split; [exact H1|lia].
Qed.

(** X8.  [run] can only return after the clock has been set to
    [float('inf')] (or is not a number), and it computes the utilization
    from that clock: whenever [run] returns, the [server_utilization] it
    reports is not positive. *)
Theorem X8_returned_utilization_is_not_positive (src : Source) (fuel : nat)
        (n : Z) (m : Metrics) (s : Sim) :
  run src fuel n = Returned m s ->
  m = metrics s /\
  below_inf (clock s) = false /\
  (0 <? server_utilization m) = false.
Proof.
  unfold run.
  destruct (main_loop src fuel (start src n)) as [s0| |] eqn:Hloop;
    [|done|done].
  destruct (finalize s0) as [[e s1]|s1] eqn:Hfin; [done|].
  intros [= <- <-].
  apply finalize_inr in Hfin as [Hclock Hu].
  apply main_loop_exit_unbounded in Hloop.
  split; [done|]. split.
  - rewrite Hclock. unfold below_inf. destruct Hloop as [H|H]; [|done].
    revert H. unfold Py.inf.
    rewrite FloatAxioms.eqb_spec, FloatAxioms.ltb_spec, Prim2SF_inf.
    destruct (Prim2SF (clock s0)) as [[]|[]| |[] mc ec]; cbn; congruence.
  - rewrite Hu. by apply percentage_of_unbounded.
Qed.

(** A run for three customers in which the second never arrives: the
    first departs at time 2, the clock becomes [float('inf')], and the
    utilization reported is 0. *)
Lemma X8_returned_utilization_is_not_positive_witness :
  mkMetrics 0 2 0 0 2 (Some 0) (Some (2 / 3))
  = metrics (mkSim 3 [mkCustomer 0 0 2 0 2] infinity false [] infinity
               infinity infinity
               (mkMetrics 0 2 0 0 2 (Some 0) (Some (2 / 3))) 1 3) /\
  below_inf infinity = false /\
  (0 <? 0) = false.
Proof.
  exact (X8_returned_utilization_is_not_positive no_second_arrival 3 3
           (mkMetrics 0 2 0 0 2 (Some 0) (Some (2 / 3)))
           (mkSim 3 [mkCustomer 0 0 2 0 2] infinity false [] infinity
                  infinity infinity
                  (mkMetrics 0 2 0 0 2 (Some 0) (Some (2 / 3))) 1 3)
           eq_refl).
Defined.

(** X9.  In every state of a run the random draws made so far are
    accounted for: one service time before the loop, one for each customer
    created, and one inter-arrival time together with one more service
    time for each arrival scheduled, of which there are no more than
    customers. *)
Theorem X9_draws_are_accounted (src : Source) (n : Z) (fuel : nat) :
  let s := state_of (main_loop src fuel (start src n)) in
  sv_calls s = (1 + length (customers s) + ia_calls s)%nat /\
  (ia_calls s <= length (customers s))%nat.
Proof. exact (draws_accounted_run src n fuel). Qed.

(** X10.  When a pass of a run handles an arrival, the customer it
    creates arrives at the time in the arrival slot, which is the clock of
    the pass, and the records of the earlier customers are left as they
    are.  If the server is idle the customer is put in service at once:
    its service starts at its arrival time and its departure, at that
    time plus its service time, becomes the pending departure.  If the
    server is busy the customer joins the tail of the queue with its
    start of service and departure time left at 0.0. *)
Theorem X10_arrival_pass (src : Source) (n : Z) (fuel : nat) (s' : Sim) :
  let s := state_of (main_loop src fuel (start src n)) in
  loop_body src s = Continue s' ->
  arrival_due s = true ->
  clock s' = next_arrival s /\
  length (customers s') = S (length (customers s)) /\
  (forall r, (r < length (customers s))%nat ->
             customers s' !! r = customers s !! r) /\
  exists c,
    customers s' !! length (customers s) = Some c /\
    arrival_time c = clock s' /\
    if server_busy s
    then queue s' = queue s ++ [length (customers s)] /\
         service_start c = 0 /\ departure_time c = 0 /\
         next_departure s' = next_departure s
    else queue s' = queue s /\
         service_start c = arrival_time c /\
         departure_time c = arrival_time c + service_time c /\
         next_departure s' = departure_time c.
Proof.
  intros s Hpass Hdue.
  destruct (slots_consistent_run src n fuel) as [Hmin _]. fold s in Hmin.
  assert (next_event_time s = next_arrival s) as Hclock.
  { rewrite Hmin. apply min_of_leb.
    unfold arrival_due in Hdue. by apply andb_true_iff in Hdue as [Hle _]. }
  set (s0 := set_clock (next_event_time s) s) in *.
  apply loop_body_continue in Hpass as [[_ ->]|[Hnot _]];
    [|change (arrival_due (set_clock (next_event_time s) s))
        with (arrival_due s) in Hnot; congruence].
  fold s0.
  rewrite clock_update_next_event_time, customers_update_next_event_time,
    queue_update_next_event_time, process_arrival_clock,
    process_arrival_length, process_arrival_queue.
  change (clock s0) with (next_event_time s).
  change (customers s0) with (customers s).
  change (queue s0) with (queue s).
  change (server_busy s0) with (server_busy s).
  split; [exact Hclock|]. split; [done|]. split.
  { intros r Hr. exact (process_arrival_lookup_old src s0 r Hr). }
  destruct (process_arrival_lookup_new src s0) as (c & Hc & _ & Ha & _ & Hb).
  change (customers s0) with (customers s) in Hc.
  change (next_arrival s0) with (next_arrival s) in Ha.
  change (server_busy s0) with (server_busy s) in Hb.
  change (clock s0) with (next_event_time s) in Hb.
  exists c. split; [exact Hc|]. split; [by rewrite Hclock|].
  assert (next_departure (update_next_event_time (process_arrival src s0))
          = if server_busy s then next_departure s
            else departure_time
                   (deref (process_arrival src s0) (length (customers s))))
    as Hnd.
  { rewrite process_arrival_eq.
    exact (handle_arrival_next_departure src (length (customers s)) _). }
  assert (deref (process_arrival src s0) (length (customers s)) = c) as Hderef
    by (unfold deref; rewrite Hc; reflexivity).
  rewrite Hnd, Hderef.
  destruct (server_busy s).
  - destruct Hb as [-> ->]. done.
  - destruct Hb as [Hs Hd]. rewrite Hd, Hs, Ha, Hclock. done.
Qed.

(** The third pass of the three-customer run with the constant source:
    customer 1 arrives at time 3, finds the server idle and is to depart
    at time 5. *)
Lemma X10_arrival_pass_witness :
  let s := state_of (main_loop demo 2 (start demo 3)) in
  let s' := mkSim 3 [mkCustomer 0 0 2 0 2; mkCustomer 1 3 2 3 5] 3 true []
                  3 3 5 (mkMetrics 0 2 0 0 2 None None) 1 4 in
  clock s' = next_arrival s /\
  length (customers s') = S (length (customers s)) /\
  (forall r, (r < length (customers s))%nat ->
             customers s' !! r = customers s !! r) /\
  exists c,
    customers s' !! length (customers s) = Some c /\
    arrival_time c = clock s' /\
    if server_busy s
    then queue s' = queue s ++ [length (customers s)] /\
         service_start c = 0 /\ departure_time c = 0 /\
         next_departure s' = next_departure s
    else queue s' = queue s /\
         service_start c = arrival_time c /\
         departure_time c = arrival_time c + service_time c /\
         next_departure s' = departure_time c.
Proof.
  assert (loop_body demo (state_of (main_loop demo 2 (start demo 3)))
          = Continue
              (mkSim 3 [mkCustomer 0 0 2 0 2; mkCustomer 1 3 2 3 5] 3 true
                     [] 3 3 5 (mkMetrics 0 2 0 0 2 None None) 1 4)) as Hpass
    by (vm_compute; reflexivity).
  assert (arrival_due (state_of (main_loop demo 2 (start demo 3))) = true)
    as Hdue by (vm_compute; reflexivity).
  exact (X10_arrival_pass demo 3 2 _ Hpass Hdue).
Defined.

(** X11.  The series [plot_queue_length_over_time] builds pairs every
    arrival time with the length 0 and every departure time with the
    length 1, whatever the rows hold: its counter is back at 0 after each
    row.  The series, however it is ordered afterwards, therefore has two
    points for each row and never shows a length above 1. *)
Theorem X11_queue_length_series_alternates (rows : list CustomerRow) :
  queue_length_series rows
  = (rows ≫= fun row => [(row_arrival_time row, 0%Z);
                          (row_departure_time row, 1%Z)]) /\
  forall series, series ≡ₚ queue_length_series rows ->
    length series = (2 * length rows)%nat /\
    Forall (fun point => snd point = 0%Z \/ snd point = 1%Z) series.
Proof.
  assert (forall tp ql,
            length tp = length ql ->
            foldl series_step (tp, ql, 0%Z) rows
            = (tp ++ (rows ≫= fun row => [row_arrival_time row;
                                           row_departure_time row]),
               ql ++ (rows ≫= fun _ => [0%Z; 1%Z]), 0%Z)) as Hfold.
  { induction rows as [|row rows IH]; intros tp ql Hlen; cbn.
    - by rewrite !app_nil_r.
    - change (Py.max 0 (0 + 1 - 1)) with 0%Z.
      rewrite IH by (rewrite !length_app; cbn; lia).
      by rewrite <- !app_assoc. }
  assert (queue_length_series rows
          = (rows ≫= fun row => [(row_arrival_time row, 0%Z);
                                  (row_departure_time row, 1%Z)])) as Heq.
  { unfold queue_length_series. rewrite (Hfold [] [] eq_refl). cbn.
    clear Hfold. induction rows as [|row rows IH]; cbn; [done|].
    by rewrite IH. }
  split; [exact Heq|]. intros series Hperm. rewrite Hperm, Heq. split.
  - clear. induction rows as [|row rows IH]; cbn; [done|]. rewrite IH. lia.
  - clear. induction rows as [|row rows IH]; cbn; [constructor|].
    constructor; [by left|]. constructor; [by right|]. exact IH.
Qed.

(** X12.  When a pass of a run raises, the exception is [StopIteration]
    and nothing but the clock has been written.  Provided the pending
    departure, if there is one, is at a finite time, the clock of that
    pass is the time in the arrival slot, at which no customer departs;
    and if that time compares as not later than the pending departure,
    all [num_customers] customers have already been created: the arrival
    in the slot is a stale one. *)
Theorem X12_stop_iteration_at_arrival_slot (src : Source) (n : Z)
        (fuel : nat) (e : Py.Exn) (s' : Sim) :
  let s := state_of (main_loop src fuel (start src n)) in
  loop_body src s = Raise e s' ->
  (server_busy s = true -> finite (next_departure s) = true) ->
  e = Py.StopIteration /\
  s' = set_clock (next_event_time s) s /\
  clock s' = next_arrival s /\
  matches (next_arrival s) (customers s) = 0%nat /\
  ((next_arrival s <=? next_departure s) = true ->
   (num_customers s <= len (customers s))%Z).
Proof.
  intros s Hraise Hfin.
  destruct (loop_body_raise src s s' e Hraise) as [-> ->].
  destruct (loop_body_raise_inv src s _ _ Hraise) as [Hdue Hnone].
  destruct (slots_consistent_run src n fuel) as [Hmin Hidle].
  destruct (station_inv_run src n fuel) as (_ & _ & Hserv).
  fold s in Hmin, Hidle, Hserv.
  assert (next_event_time s = next_arrival s) as Hclock.
  { rewrite Hmin. destruct (server_busy s) eqn:B.
    - unfold Py.min.
      destruct (next_departure s <? next_arrival s) eqn:Hlt; [|done].
      exfalso. rewrite Hmin in Hnone. unfold Py.min in Hnone.
      rewrite Hlt in Hnone.
      destruct (Hserv B) as (r & c & Hr & Hc).
      destruct (next_index_found (departs_at (next_departure s))
                  (customers s) r c Hr) as (r' & Hr' & _).
      + rewrite <- Hc. apply departs_at_own_time. rewrite Hc. by apply Hfin.
      + congruence.
    - rewrite (Hidle eq_refl). apply min_inf_r. }
  split; [done|]. split; [done|]. split; [exact Hclock|]. split.
  - rewrite <- Hclock. by apply matches_none.
  - intros Hle. unfold arrival_due in Hdue.
    change (next_arrival (set_clock (next_event_time s) s))
      with (next_arrival s) in Hdue.
    change (next_departure (set_clock (next_event_time s) s))
      with (next_departure s) in Hdue.
    rewrite Hle in Hdue. cbn in Hdue. by apply Z.ltb_ge in Hdue.
Qed.

(** The second pass of the one-customer run with the constant source. *)
Lemma X12_stop_iteration_at_arrival_slot_witness :
  let s := state_of (main_loop demo 1 (start demo 1)) in
  Py.StopIteration = Py.StopIteration /\
  stuck1 2 = set_clock (next_event_time s) s /\
  clock (stuck1 2) = next_arrival s /\
  matches (next_arrival s) (customers s) = 0%nat /\
  ((next_arrival s <=? next_departure s) = true ->
   (num_customers s <= len (customers s))%Z).
Proof.
  exact (X12_stop_iteration_at_arrival_slot demo 1 1 Py.StopIteration
           (stuck1 2) eq_refl (fun _ => eq_refl)).
Defined.

(** X13.  What a pass does to the metrics.  An arrival leaves the three
    sums as they are and can only raise [max_queue_length]; a departure
    leaves [max_queue_length] as it is and adds to the three sums the
    waiting time, the time in system and the service time of the customer
    the lookup selected, as its record stands at that moment. *)
Theorem X13_metrics_of_a_pass (src : Source) (s s' : Sim) :
  loop_body src s = Continue s' ->
  let m := metrics s in
  let m' := metrics s' in
  (max_queue_length m <= max_queue_length m')%Z /\
  if arrival_due s
  then total_waiting_time m' = total_waiting_time m /\
       total_system_time m' = total_system_time m /\
       busy_time m' = busy_time m
  else exists r c,
       Py.next_index (departs_at (next_event_time s)) (customers s) = Some r /\
       customers s !! r = Some c /\
       max_queue_length m' = max_queue_length m /\
       total_waiting_time m' = total_waiting_time m + waiting_time c /\
       total_system_time m' = total_system_time m + time_in_system c /\
       busy_time m' = busy_time m + service_time c.
Proof.
  intros Hpass m m'. subst m m'.
  apply loop_body_continue in Hpass as [[Hdue ->]|[Hdue (r & Hr & ->)]];
    change (arrival_due (set_clock (next_event_time s) s))
      with (arrival_due s) in Hdue;
    rewrite Hdue, metrics_update_next_event_time.
  - split.
    + rewrite process_arrival_max_queue_length. apply max_bounds.
    + exact (process_arrival_sums src (set_clock (next_event_time s) s)).
  - rewrite handle_departure_max_queue_length. split; [done|].
    change (clock (set_clock (next_event_time s) s))
      with (next_event_time s) in Hr.
    change (customers (set_clock (next_event_time s) s))
      with (customers s) in Hr.
    destruct (proj1 (next_index_Some _ _ _) Hr) as [(c & Hc & _) _].
    exists r, c. split; [done|]. split; [done|]. split; [done|].
    pose proof (handle_departure_metrics r
                  (set_clock (next_event_time s) s)) as Hm.
    cbv zeta in Hm.
    assert (deref (set_clock (next_event_time s) s) r = c) as Hderef
      by (unfold deref; cbn; rewrite Hc; reflexivity).
    rewrite Hderef in Hm. exact Hm.
Qed.

(** The third pass of the two-customer run with the constant source: the
    departure of customer 1, who has not been served. *)
Lemma X13_metrics_of_a_pass_witness :
  let m := metrics (queued2 2 2) in
  let m' := metrics (stuck2 2 2) in
  (max_queue_length m <= max_queue_length m')%Z /\
  if arrival_due (queued2 2 2)
  then total_waiting_time m' = total_waiting_time m /\
       total_system_time m' = total_system_time m /\
       busy_time m' = busy_time m
  else exists r c,
       Py.next_index (departs_at (next_event_time (queued2 2 2)))
         (customers (queued2 2 2)) = Some r /\
       customers (queued2 2 2) !! r = Some c /\
       max_queue_length m' = max_queue_length m /\
       total_waiting_time m' = total_waiting_time m + waiting_time c /\
       total_system_time m' = total_system_time m + time_in_system c /\
       busy_time m' = busy_time m + service_time c.
Proof.
  exact (X13_metrics_of_a_pass demo (queued2 2 2) (stuck2 2 2) eq_refl).
Defined.

(** X14.  For at least one customer, whatever the source returns, the
    first pass of a run handles an arrival: the first customer arrives at
    time 0 into an empty station, is put in service at once (its waiting
    time is 0) and is to depart after its service time.  That service
    time is the second one drawn: the one drawn before the loop for
    [first_customer] is not used. *)
Theorem X14_first_customer (src : Source) (n : Z) :
  (1 <= n)%Z ->
  let s1 := update_next_event_time (process_arrival src (start src n)) in
  let c := mkCustomer 0 0 (service_draw src 1) 0 (0 + service_draw src 1) in
  loop_body src (start src n) = Continue s1 /\
  customers s1 = [c] /\ waiting_time c = 0 /\
  clock s1 = 0 /\ server_busy s1 = true /\ queue s1 = [] /\
  next_departure s1 = departure_time c /\
  max_queue_length (metrics s1) = 0%Z.
Proof.
  intros Hn s1 c.
  assert (customers s1 = [c]) as Hc.
  { unfold s1. rewrite customers_update_next_event_time, process_arrival_eq,
      handle_arrival_customers. reflexivity. }
  assert (queue s1 = []) as Hq.
  { unfold s1. rewrite queue_update_next_event_time, process_arrival_queue.
    reflexivity. }
  split; [|split; [exact Hc|]; split; [reflexivity|]; split; [|split];
           [| |split; [exact Hq|split]]].
  - unfold loop_body. cbv zeta.
    change (clock (set_clock _ _) =? Py.inf) with false. cbv iota.
    assert (arrival_due (set_clock (next_event_time (start src n))
                                   (start src n)) = true) as ->.
    { unfold arrival_due. apply andb_true_iff. split; [reflexivity|].
      apply Z.ltb_lt. cbn. unfold len. cbn. lia. }
    reflexivity.
  - unfold s1. rewrite clock_update_next_event_time, process_arrival_clock.
    reflexivity.
  - unfold s1. rewrite server_busy_update_next_event_time.
    apply process_arrival_server_busy.
  - assert (next_departure s1
            = departure_time (deref (process_arrival src (start src n)) 0))
      as ->.
    { unfold s1.
      rewrite next_departure_update_next_event_time, process_arrival_eq.
      rewrite handle_arrival_next_departure. reflexivity. }
    unfold deref. unfold s1 in Hc.
    rewrite customers_update_next_event_time in Hc. rewrite Hc. reflexivity.
  - unfold s1.
    rewrite metrics_update_next_event_time, process_arrival_max_queue_length.
    unfold s1 in Hq. rewrite queue_update_next_event_time in Hq.
    rewrite Hq. reflexivity.
Qed.

(** The first pass of the one-customer run with the constant source. *)
Lemma X14_first_customer_witness :
  let s1 := update_next_event_time (process_arrival demo (start demo 1)) in
  let c := mkCustomer 0 0 2 0 (0 + 2) in
  loop_body demo (start demo 1) = Continue s1 /\
  customers s1 = [c] /\ waiting_time c = 0 /\
  clock s1 = 0 /\ server_busy s1 = true /\ queue s1 = [] /\
  next_departure s1 = departure_time c /\
  max_queue_length (metrics s1) = 0%Z.
Proof. exact (X14_first_customer demo 1 ltac:(lia)). Defined.

End Further.
